(** * Verification of the recommendation pipeline and the scoring helpers
    of the news platform backend.

    Sources embedded here:
    - [src/backend/shared/utils.py]: [calculate_reading_time],
      [calculate_word_count], [extract_keywords], [calculate_quality_score],
      [calculate_trending_score], [cache_key_generator];
    - [src/backend/fastapi_app/routers/recommendations.py] and
      [src/backend/flask_app/routes/recommendations.py]:
      [get_recommendations] of both frameworks.

    Python strings are modelled as lists of characters, a character being
    an [ascii] value read as a Latin-1 code point (the first 256 code points
    of Unicode).  Python floats are IEEE binary64 numbers, modelled with the
    Standard Library's [SpecFloat] (an executable, axiom-free specification
    of binary floating point). *)

From Stdlib Require Import ZArith Ascii String List Lia.
From Stdlib Require Import Floats.SpecFloat Sorting.Sorted Permutation.
From stdpp Require Import base list gmap strings pretty.

#[local] Set Warnings "-register-all".

Import ListNotations.
Open Scope Z_scope.

(* ------------------------------------------------------------------ *)
(** ** Characters and Python's string splitting *)

Definition code (c : ascii) : nat := nat_of_ascii c.

(** [str.isspace] on Latin-1: \t \n \v \f \r, \x1c-\x1f, space, \x85, \xa0. *)
Definition is_space (c : ascii) : bool :=
  let n := code c in
  ((9 <=? n)%nat && (n <=? 13)%nat) || ((28 <=? n)%nat && (n <=? 32)%nat)
  || (n =? 133)%nat || (n =? 160)%nat.

Definition is_ascii_upper (c : ascii) : bool :=
  let n := code c in (65 <=? n)%nat && (n <=? 90)%nat.

Definition is_ascii_lower (c : ascii) : bool :=
  let n := code c in (97 <=? n)%nat && (n <=? 122)%nat.

Definition is_ascii_letter (c : ascii) : bool :=
  is_ascii_upper c || is_ascii_lower c.

Definition is_ascii_digit (c : ascii) : bool :=
  let n := code c in (48 <=? n)%nat && (n <=? 57)%nat.

(** Unicode word characters ([\w] of Python's [re] on [str]) among the
    Latin-1 code points: ASCII letters, digits and underscore, the
    alphabetic characters ª µ º À-Ö Ø-ö ø-ÿ and the numeric
    characters ² ³ ¹ ¼ ½ ¾. *)
Definition is_word_char (c : ascii) : bool :=
  let n := code c in
  is_ascii_letter c || is_ascii_digit c || (n =? 95)%nat
  || (n =? 170)%nat || (n =? 181)%nat || (n =? 186)%nat
  || ((192 <=? n)%nat && (n <=? 214)%nat)
  || ((216 <=? n)%nat && (n <=? 246)%nat)
  || ((248 <=? n)%nat && (n <=? 255)%nat)
  || (n =? 178)%nat || (n =? 179)%nat || (n =? 185)%nat
  || ((188 <=? n)%nat && (n <=? 190)%nat).

(** [str.lower] on Latin-1: A-Z and À-Þ (except ×) move down by 32. *)
Definition lower_char (c : ascii) : ascii :=
  let n := code c in
  if is_ascii_upper c || ((192 <=? n)%nat && (n <=? 222)%nat && negb (n =? 215)%nat)
  then ascii_of_nat (n + 32) else c.

(** Splitting into maximal runs of characters that fail [sep], dropping
    empty runs; [cur] is the current run, reversed.  With [sep := is_space]
    this is Python's [str.split()] with no argument. *)
Fixpoint split_runs (sep : ascii -> bool) (cs cur : list ascii)
  : list (list ascii) :=
  match cs with
  | [] => match cur with [] => [] | _ => [rev cur] end
  | c :: cs' =>
      if sep c then
        match cur with
        | [] => split_runs sep cs' []
        | _ => rev cur :: split_runs sep cs' []
        end
      else split_runs sep cs' (c :: cur)
  end.

Definition py_split (s : string) : list (list ascii) :=
  split_runs is_space (list_ascii_of_string s) [].

Fixpoint is_prefix (p l : list ascii) : bool :=
  match p, l with
  | [], _ => true
  | a :: p', b :: l' => Ascii.eqb a b && is_prefix p' l'
  | _ :: _, [] => false
  end.

(** Python's [str.split(sep)] for a nonempty separator: the pieces between
    non-overlapping occurrences of [sep], scanned left to right.  Each step
    consumes at least one character, so [S (length cs)] steps suffice. *)
Fixpoint split_sep_fuel (fuel : nat) (sep cs cur : list ascii)
  : list (list ascii) :=
  match fuel with
  | O => [rev cur]
  | S fuel' =>
      if is_prefix sep cs then
        rev cur :: split_sep_fuel fuel' sep (drop (length sep) cs) []
      else
        match cs with
        | [] => [rev cur]
        | c :: cs' => split_sep_fuel fuel' sep cs' (c :: cur)
        end
  end.

Definition py_split_sep (s sep : string) : list (list ascii) :=
  let cs := list_ascii_of_string s in
  split_sep_fuel (S (length cs)) (list_ascii_of_string sep) cs [].

(** [s.strip()]: drop leading and trailing whitespace. *)
Fixpoint lstrip (cs : list ascii) : list ascii :=
  match cs with
  | c :: cs' => if is_space c then lstrip cs' else cs
  | [] => []
  end.

Definition py_strip (s : string) : list ascii :=
  rev (lstrip (rev (lstrip (list_ascii_of_string s)))).

(* ------------------------------------------------------------------ *)
(** ** Python floats as binary64 *)

Definition prec64 : Z := 53.
Definition emax64 : Z := 1024.

Abbreviation pyfloat := spec_float.

Definition f_add (x y : pyfloat) : pyfloat := SFadd prec64 emax64 x y.
Definition f_mul (x y : pyfloat) : pyfloat := SFmul prec64 emax64 x y.
Definition f_div (x y : pyfloat) : pyfloat := SFdiv prec64 emax64 x y.
Definition f_leb (x y : pyfloat) : bool := SFleb x y.

(** [float(n)] for an integer [n]: correctly rounded. *)
Definition f_of_Z (n : Z) : pyfloat := binary_normalize prec64 emax64 n 0 false.

(** [a / b] for Python integers [a] and [b > 0]: the quotient correctly
    rounded to binary64 (CPython's long true division). *)
Definition int_truediv (a b : Z) : pyfloat :=
  match a with
  | Z0 => S754_zero false
  | Zpos p =>
      let '(mz, ez, lz) := SFdiv_core_binary prec64 emax64 (Zpos p) 0 b 0 in
      binary_round_aux prec64 emax64 false mz ez lz
  | Zneg p =>
      let '(mz, ez, lz) := SFdiv_core_binary prec64 emax64 (Zpos p) 0 b 0 in
      binary_round_aux prec64 emax64 true mz ez lz
  end.

(** The float literals of the source, each the double nearest to the
    decimal (the correctly rounded quotient). *)
Definition lit_0_1 : pyfloat := int_truediv 1 10.
Definition lit_0_4 : pyfloat := int_truediv 4 10.
Definition lit_0_6 : pyfloat := int_truediv 6 10.
Definition lit_0_8 : pyfloat := int_truediv 8 10.
Definition lit_1_0 : pyfloat := f_of_Z 1.
Definition lit_2_5 : pyfloat := int_truediv 5 2.

(** Round half to even of [m * 2^e * k], for [m], [k] nonnegative. *)
Definition round_half_even_scaled (m e k : Z) : Z :=
  if 0 <=? e then m * k * 2 ^ e
  else
    let d := 2 ^ (- e) in
    let q := (m * k) / d in
    let r := (m * k) mod d in
    match Z.compare (2 * r) d with
    | Lt => q
    | Gt => q + 1
    | Eq => if Z.even q then q else q + 1
    end.

(** Python's [round(x)] (no digits): the nearest integer, ties to even.
    It raises on infinities and NaN; [None] there. *)
Definition py_round (x : pyfloat) : option Z :=
  match x with
  | S754_zero _ => Some 0
  | S754_finite s m e =>
      let n := round_half_even_scaled (Zpos m) e 1 in
      Some (if s then - n else n)
  | _ => None
  end.

(** Python's [round(x, 2)]: CPython rounds the exact binary value to two
    decimals (correctly rounded, ties to even) and reads the decimal back
    as the nearest double; infinities and NaN come back unchanged, and a
    value that rounds to zero keeps its sign. *)
Definition py_round2 (x : pyfloat) : pyfloat :=
  match x with
  | S754_finite s m e =>
      let n := round_half_even_scaled (Zpos m) e 100 in
      if n =? 0 then S754_zero s
      else int_truediv (if s then - n else n) 100
  | _ => x
  end.

(* ------------------------------------------------------------------ *)
(** ** [calculate_reading_time], [calculate_word_count] *)

Definition calculate_word_count (content : string) : Z :=
  Z.of_nat (length (py_split content)).

(** [max(1, round(word_count / 200))]; [round] of a finite float never
    raises, the [None] branch is unreachable. *)
Definition calculate_reading_time (content : string) : Z :=
  let word_count := Z.of_nat (length (py_split content)) in
  match py_round (int_truediv word_count 200) with
  | Some r => Z.max 1 r
  | None => 1
  end.

(* ------------------------------------------------------------------ *)
(** ** [calculate_quality_score] *)

(** The running [score] is a float that only ever receives integers
    (at most 100 in total), so it is exact and kept as a [Z] until the
    final [round(min(score, 100.0), 2)]. *)
Definition length_points (word_count : Z) : Z :=
  if 500 <=? word_count then 30
  else if 300 <=? word_count then 20
  else if 150 <=? word_count then 10
  else 0.

Definition title_points (title_word_count : Z) : Z :=
  if (5 <=? title_word_count) && (title_word_count <=? 12) then 20
  else if (3 <=? title_word_count) && (title_word_count <=? 15) then 15
  else 5.

(** [if summary and len(summary.strip()) > 50 ... elif summary ...]:
    [None] and the empty string are falsy. *)
Definition summary_points (summary : option string) : Z :=
  match summary with
  | Some s =>
      if String.eqb s "" then 0
      else if (50 <? Z.of_nat (length (py_strip s))) then 15
      else 10
  | None => 0
  end.

(** [if sentences:] then the average words per sentence, a float
    division, compared with 10, 20, 5 and 25. *)
Definition readability_points (sentences : list (list ascii)) : Z :=
  match sentences with
  | [] => 0
  | _ =>
      let total := sum_list_with
                     (fun s => length (split_runs is_space s [])) sentences in
      let avg := int_truediv (Z.of_nat total) (Z.of_nat (length sentences)) in
      if f_leb (f_of_Z 10) avg && f_leb avg (f_of_Z 20) then 20
      else if f_leb (f_of_Z 5) avg && f_leb avg (f_of_Z 25) then 15
      else 10
  end.

Definition structure_points (paragraphs : list (list ascii)) : Z :=
  if (3 <=? length paragraphs)%nat then 15
  else if (2 <=? length paragraphs)%nat then 10
  else 5.

Definition quality_raw (content title : string) (summary : option string) : Z :=
  length_points (calculate_word_count content)
  + title_points (Z.of_nat (length (py_split title)))
  + summary_points summary
  + readability_points (py_split_sep content ".")
  + structure_points (py_split_sep content (String "010"%char (String "010"%char EmptyString))).

Definition calculate_quality_score (content title : string)
    (summary : option string) : pyfloat :=
  py_round2 (f_of_Z (Z.min (quality_raw content title summary) 100)).

(* ------------------------------------------------------------------ *)
(** ** [calculate_trending_score] *)

(** Datetimes are integer microseconds; [(current_time - published_at)
    .total_seconds()] is the microsecond difference divided by [10**6]
    (long true division), then divided by the float [3600]. *)
Definition hours_since (published_at current_time : Z) : pyfloat :=
  f_div (int_truediv (current_time - published_at) 1000000) (f_of_Z 3600).

Definition time_factor (hours : pyfloat) : pyfloat :=
  if f_leb hours (f_of_Z 1) then lit_1_0
  else if f_leb hours (f_of_Z 24) then lit_0_8
  else if f_leb hours (f_of_Z 72) then lit_0_6
  else if f_leb hours (f_of_Z 168) then lit_0_4
  else lit_0_1.

(** [views * 0.1 + likes * 2 + shares * 3 + comments * 2.5], evaluated
    left to right; the integer products [likes * 2] and [shares * 3] are
    exact and converted to float by the additions. *)
Definition activity_score (views likes shares comments : Z) : pyfloat :=
  f_add (f_add (f_add (f_mul (f_of_Z views) lit_0_1) (f_of_Z (likes * 2)))
               (f_of_Z (shares * 3)))
        (f_mul (f_of_Z comments) lit_2_5).

Definition calculate_trending_score (views likes shares comments : Z)
    (published_at current_time : Z) : pyfloat :=
  let tf := time_factor (hours_since published_at current_time) in
  let trending_score := f_mul (activity_score views likes shares comments) tf in
  py_round2 trending_score.

(* ------------------------------------------------------------------ *)
(** ** [extract_keywords] *)

Definition stop_words : list string :=
  ["the"; "a"; "an"; "and"; "or"; "but"; "in"; "on"; "at"; "to";
   "for"; "of"; "with"; "by"; "is"; "are"; "was"; "were"; "be";
   "been"; "have"; "has"; "had"; "do"; "does"; "did"; "will";
   "would"; "could"; "should"; "can"; "may"; "might"; "this";
   "that"; "these"; "those"; "i"; "you"; "he"; "she"; "it";
   "we"; "they"; "me"; "him"; "her"; "us"; "them"].

Definition is_stop_word (w : list ascii) : bool :=
  existsb (fun s => String.eqb s (string_of_list_ascii w)) stop_words.

(** [re.findall(r'\b[a-zA-Z]{3,}\b', content.lower())]: a match is a
    whole maximal run of word characters made only of ASCII letters, at
    least three long (inside a run there is no word boundary). *)
Definition findall_words (content : string) : list (list ascii) :=
  List.filter (fun r => forallb is_ascii_letter r && (3 <=? length r)%nat)
    (split_runs (fun c => negb (is_word_char c))
       (map lower_char (list_ascii_of_string content)) []).

(** [word_count[word] = word_count.get(word, 0) + 1] on a dict kept as
    its items in insertion order. *)
Fixpoint bump (w : list ascii) (d : list (list ascii * nat))
  : list (list ascii * nat) :=
  match d with
  | [] => [(w, 1%nat)]
  | (k, c) :: d' =>
      if decide (k = w) then (k, S c) :: d' else (k, c) :: bump w d'
  end.

Definition count_words (words : list (list ascii)) : list (list ascii * nat) :=
  fold_left (fun d w => if is_stop_word w then d else bump w d) words [].

(** [sorted(items, key=lambda x: x[1], reverse=True)]: Python's sort
    stays stable with [reverse=True], so this is a stable insertion sort
    by count, largest first, equal counts in their original order. *)
Fixpoint insert_desc (x : list ascii * nat) (l : list (list ascii * nat))
  : list (list ascii * nat) :=
  match l with
  | [] => [x]
  | y :: l' => if (y.2 <=? x.2)%nat then x :: y :: l' else y :: insert_desc x l'
  end.

Fixpoint sort_desc (l : list (list ascii * nat)) : list (list ascii * nat) :=
  match l with
  | [] => []
  | x :: l' => insert_desc x (sort_desc l')
  end.

(** [xs[:k]] for a Python list and an integer [k]. *)
Definition py_slice_to {A} (xs : list A) (k : Z) : list A :=
  if 0 <=? k then take (Z.to_nat k) xs
  else take (Z.to_nat (Z.of_nat (length xs) + k)) xs.

Definition extract_keywords (content : string) (max_keywords : Z)
  : list (list ascii) :=
  let words := findall_words content in
  let word_count := count_words words in
  let sorted_words := sort_desc word_count in
  map fst (py_slice_to sorted_words max_keywords).

(** The reading of [extract_keywords] its specification gives: the
    tokens it counts (the matches that are not stop words), how often a
    token occurs, where it is first met, and the ranking by count and then
    first occurrence. *)

(** The tokens [extract_keywords] counts: the matches that are not stop words. *)
Definition keyword_tokens (content : string) : list (list ascii) :=
  List.filter (fun w => negb (is_stop_word w)) (findall_words content).

Definition occurrences (w : list ascii) (ws : list (list ascii)) : nat :=
  length (List.filter (fun v => bool_decide (v = w)) ws).

(** The index of the first occurrence of [w] in [ws]. *)
Fixpoint first_pos (w : list ascii) (ws : list (list ascii)) : nat :=
  match ws with
  | [] => O
  | v :: ws' => if bool_decide (v = w) then O else S (first_pos w ws')
  end.

(** The distinct elements of [ws] in order of first occurrence. *)
Fixpoint uniq_first (ws : list (list ascii)) : list (list ascii) :=
  match ws with
  | [] => []
  | w :: ws' => w :: List.filter (fun v => negb (bool_decide (v = w))) (uniq_first ws')
  end.

(** [u] ranks before [v] among the tokens [ws]: more occurrences, or as
    many and encountered first. *)
Definition keyword_before (ws : list (list ascii)) (u v : list ascii) : Prop :=
  (occurrences v ws < occurrences u ws)%nat
  \/ (occurrences u ws = occurrences v ws /\ (first_pos u ws < first_pos v ws)%nat).

Definition keyword_table (ws : list (list ascii)) : list (list ascii * nat) :=
  map (fun v => (v, occurrences v ws)) (uniq_first ws).

Abbreviation Entry := (list ascii * nat)%type (only parsing).

(* ------------------------------------------------------------------ *)
(** ** [hashlib.md5(s.encode()).hexdigest()] *)

Module MD5.

Definition mask32 (x : Z) : Z := Z.land x (2 ^ 32 - 1).
Definition add32 (x y : Z) : Z := mask32 (x + y).
Definition not32 (x : Z) : Z := Z.lxor x (2 ^ 32 - 1).
Definition rotl32 (x : Z) (s : Z) : Z :=
  mask32 (Z.lor (Z.shiftl x s) (Z.shiftr x (32 - s))).

Definition K : list Z :=
  [0xd76aa478; 0xe8c7b756; 0x242070db; 0xc1bdceee;
   0xf57c0faf; 0x4787c62a; 0xa8304613; 0xfd469501;
   0x698098d8; 0x8b44f7af; 0xffff5bb1; 0x895cd7be;
   0x6b901122; 0xfd987193; 0xa679438e; 0x49b40821;
   0xf61e2562; 0xc040b340; 0x265e5a51; 0xe9b6c7aa;
   0xd62f105d; 0x02441453; 0xd8a1e681; 0xe7d3fbc8;
   0x21e1cde6; 0xc33707d6; 0xf4d50d87; 0x455a14ed;
   0xa9e3e905; 0xfcefa3f8; 0x676f02d9; 0x8d2a4c8a;
   0xfffa3942; 0x8771f681; 0x6d9d6122; 0xfde5380c;
   0xa4beea44; 0x4bdecfa9; 0xf6bb4b60; 0xbebfbc70;
   0x289b7ec6; 0xeaa127fa; 0xd4ef3085; 0x04881d05;
   0xd9d4d039; 0xe6db99e5; 0x1fa27cf8; 0xc4ac5665;
   0xf4292244; 0x432aff97; 0xab9423a7; 0xfc93a039;
   0x655b59c3; 0x8f0ccc92; 0xffeff47d; 0x85845dd1;
   0x6fa87e4f; 0xfe2ce6e0; 0xa3014314; 0x4e0811a1;
   0xf7537e82; 0xbd3af235; 0x2ad7d2bb; 0xeb86d391].

Definition shift_amount (i : nat) : Z :=
  let r := (i mod 4)%nat in
  match (i / 16)%nat with
  | 0%nat => nth r [7; 12; 17; 22] 0
  | 1%nat => nth r [5; 9; 14; 20] 0
  | 2%nat => nth r [4; 11; 16; 23] 0
  | _ => nth r [6; 10; 15; 21] 0
  end.

(** Little-endian 32-bit word [j] of a 64-byte block. *)
Definition word_at (block : list Z) (j : nat) : Z :=
  let b k := nth (4 * j + k)%nat block 0 in
  b 0%nat + b 1%nat * 2 ^ 8 + b 2%nat * 2 ^ 16 + b 3%nat * 2 ^ 24.

Definition round_step (block : list Z) (st : Z * Z * Z * Z) (i : nat)
  : Z * Z * Z * Z :=
  let '(a, b, c, d) := st in
  let '(f, g) :=
    match (i / 16)%nat with
    | 0%nat => (Z.lor (Z.land b c) (Z.land (not32 b) d), i)
    | 1%nat => (Z.lor (Z.land d b) (Z.land (not32 d) c), ((5 * i + 1) mod 16)%nat)
    | 2%nat => (Z.lxor b (Z.lxor c d), ((3 * i + 5) mod 16)%nat)
    | _ => (Z.lxor c (Z.lor b (not32 d)), ((7 * i) mod 16)%nat)
    end in
  let f := add32 (add32 (add32 f a) (nth i K 0)) (word_at block g) in
  (d, add32 b (rotl32 f (shift_amount i)), b, c).

Definition compress (st : Z * Z * Z * Z) (block : list Z) : Z * Z * Z * Z :=
  let '(a, b, c, d) := st in
  let '(a', b', c', d') := fold_left (round_step block) (seq 0 64) st in
  (add32 a a', add32 b b', add32 c c', add32 d d').

Definition le_bytes (n : nat) (x : Z) : list Z :=
  map (fun k => Z.land (Z.shiftr x (8 * Z.of_nat k)) 255) (seq 0 n).

(** Padding: [0x80], zeros up to 56 mod 64, the bit length on 8 bytes. *)
Definition pad (msg : list Z) : list Z :=
  let len := length msg in
  let zeros := ((119 - len mod 64) mod 64)%nat in
  msg ++ [128] ++ repeat 0 zeros ++ le_bytes 8 (Z.of_nat len * 8).

Fixpoint blocks (n : nat) (bs : list Z) (st : Z * Z * Z * Z) : Z * Z * Z * Z :=
  match n with
  | O => st
  | S n' => blocks n' (drop 64 bs) (compress st (take 64 bs))
  end.

Definition hex_digit (n : Z) : ascii :=
  if n <? 10 then ascii_of_nat (Z.to_nat (48 + n))
  else ascii_of_nat (Z.to_nat (87 + n)).

Definition hexdigest (bytes : list Z) : string :=
  string_of_list_ascii
    (flat_map (fun b => [hex_digit (b / 16); hex_digit (b mod 16)]) bytes).

Definition md5_bytes (msg : list Z) : list Z :=
  let p := pad msg in
  let '(a, b, c, d) :=
    blocks (length p / 64) p (0x67452301, 0xefcdab89, 0x98badcfe, 0x10325476) in
  le_bytes 4 a ++ le_bytes 4 b ++ le_bytes 4 c ++ le_bytes 4 d.

End MD5.

(** [str.encode()]: UTF-8 of Latin-1 code points. *)
Definition utf8_encode (s : string) : list Z :=
  flat_map (fun c =>
    let n := Z.of_nat (code c) in
    if n <? 128 then [n] else [192 + n / 64; 128 + n mod 64])
    (list_ascii_of_string s).

Definition md5_hexdigest (s : string) : string :=
  MD5.hexdigest (MD5.md5_bytes (utf8_encode s)).

(* ------------------------------------------------------------------ *)
(** ** Python values and [cache_key_generator] *)

(** The JSON-like values that reach the key generator.  A float is kept
    as its Python [repr] text. *)
Inductive PyVal :=
| VStr (s : string)
| VInt (n : Z)
| VBool (b : bool)
| VNone
| VFloat (repr : string)
| VList (xs : list PyVal).

Fixpoint join (sep : string) (parts : list string) : string :=
  match parts with
  | [] => ""
  | [p] => p
  | p :: ps => p +:+ sep +:+ join sep ps
  end.

(** [str(v)]; inside a list the items are shown by [repr], which quotes
    strings (escaping inside quoted strings is not modelled). *)
Fixpoint py_str (v : PyVal) : string :=
  match v with
  | VStr s => s
  | VInt n => pretty n
  | VBool true => "True"
  | VBool false => "False"
  | VNone => "None"
  | VFloat r => r
  | VList xs =>
      "[" +:+ join ", " (map (fun x => match x with
                                      | VStr s => "'" +:+ s +:+ "'"
                                      | _ => py_str x
                                      end) xs) +:+ "]"
  end.

(** Keyword arguments: the items of a Python dict in insertion order. *)
Abbreviation kwargs := (list (string * PyVal)).

(** [sorted(kwargs.items())]: the keys of a dict are distinct, so the
    tuple order is the order of the keys, Python's code-point order on
    strings, which is [String.compare]. *)
Fixpoint insert_item (x : string * PyVal) (l : kwargs) : kwargs :=
  match l with
  | [] => [x]
  | y :: l' =>
      match String.compare x.1 y.1 with
      | Gt => y :: insert_item x l'
      | _ => x :: y :: l'
      end
  end.

Fixpoint sort_items (l : kwargs) : kwargs :=
  match l with
  | [] => []
  | x :: l' => insert_item x (sort_items l')
  end.

(** The string that is hashed: [':'.join(f"{key}={value}" ...)].  Both
    callers pass keyword arguments only, so the positional part is empty. *)
Definition cache_key_string (kw : kwargs) : string :=
  join ":" (map (fun '(k, v) => k +:+ "=" +:+ py_str v) (sort_items kw)).

Definition cache_key_generator (kw : kwargs) : string :=
  md5_hexdigest (cache_key_string kw).

(* ------------------------------------------------------------------ *)
(** ** Data model of the recommendation endpoint *)

Inductive ArticleStatus := Draft | Published | Archived | Blocked.

Inductive InteractionType := Like | Dislike | Save | Share | View | Comment.

(** An [articles] row, less its primary key.  The float columns
    [trending_score] and [engagement_score] only serve the [ORDER BY];
    they are kept as integers, which preserves their order. *)
Record Article := mkArticle {
  a_status : ArticleStatus;
  a_category : string;
  a_trending_score : Z;
  a_engagement_score : Z
}.

(** A [recommendation_cache] row; timestamps in microseconds. *)
Record CachedRec := mkCachedRec {
  cr_user_id : string;
  cr_recommended_articles : list Z;
  cr_model_ensemble : string;
  cr_cache_timestamp : Z;
  cr_expiry_timestamp : Z;
  cr_is_active : bool
}.

Record Interaction := mkInteraction {
  i_user_id : string;
  i_article_id : Z;
  i_interaction_type : InteractionType
}.

(** [RecommendationResponse]: each article with its id. *)
Record Response := mkResponse {
  recommendations : list (Z * Article);
  model_used : string;
  generated_at : Z;
  expires_at : Z
}.

(** [RecommendationRequest] after validation. *)
Record RecReq := mkRecReq {
  rq_user_id : option string;
  rq_limit : Z;
  rq_categories : option (list string);
  rq_exclude_read : bool;
  rq_diversity_weight : string  (* repr of the float *)
}.

(** Everything the handler can observe: the clock, Redis (its entries
    with their expiry time, and whether connecting, [get] and [setex]
    succeed), the [recommendation_cache] table, the [articles] table keyed
    by id, the [user_interactions] table, and whether the two PostgreSQL
    queries succeed. *)
Record World := mkWorld {
  w_now : Z;
  w_redis : gmap string (Response * Z);
  w_redis_connect_ok : bool;
  w_redis_get_ok : bool;
  w_redis_set_ok : bool;
  w_rec_cache : list CachedRec;
  w_rec_cache_ok : bool;
  w_articles : gmap Z Article;
  w_articles_ok : bool;
  w_interactions : list Interaction
}.

Definition set_redis (w : World) (m : gmap string (Response * Z)) : World :=
  mkWorld (w_now w) m (w_redis_connect_ok w) (w_redis_get_ok w)
    (w_redis_set_ok w) (w_rec_cache w) (w_rec_cache_ok w) (w_articles w)
    (w_articles_ok w) (w_interactions w).

Definition is_published (a : Article) : bool :=
  match a_status a with Published => true | _ => false end.

(* ------------------------------------------------------------------ *)
(** ** The queries *)

(** [... WHERE user_id = %s AND is_active = true AND expiry_timestamp > %s
    ORDER BY cache_timestamp DESC LIMIT 1], then [fetchone()]; among rows
    with the same timestamp the first in table order is taken. *)
Definition latest_active (user_id : string) (now : Z) (rows : list CachedRec)
  : option CachedRec :=
  let valid := List.filter (fun r => String.eqb (cr_user_id r) user_id
                                     && cr_is_active r
                                     && (now <? cr_expiry_timestamp r)) rows in
  fold_left (fun best r =>
               match best with
               | None => Some r
               | Some b => if cr_cache_timestamp b <? cr_cache_timestamp r
                           then Some r else best
               end) valid None.

(** The distinct ids in order of first occurrence. *)
Fixpoint dedup_first (seen : list Z) (ids : list Z) : list Z :=
  match ids with
  | [] => []
  | x :: ids' =>
      if existsb (Z.eqb x) seen then dedup_first seen ids'
      else x :: dedup_first (x :: seen) ids'
  end.

(** [SELECT * FROM articles WHERE id = ANY(ids) AND status = 'published'
    ORDER BY array_position(ids, id)]: every existing published row whose
    id occurs in [ids], once, ordered by the first position of its id. *)
Definition articles_by_ids (tbl : gmap Z Article) (ids : list Z)
  : list (Z * Article) :=
  omap (fun i => match tbl !! i with
                 | Some a => if is_published a then Some (i, a) else None
                 | None => None
                 end) (dedup_first [] ids).

Definition is_read_type (t : InteractionType) : bool :=
  match t with View | Like | Save => true | _ => false end.

(** [SELECT DISTINCT article_id FROM user_interactions WHERE user_id = %s
    AND interaction_type IN ('view', 'like', 'save')]. *)
Definition read_article_ids (user_id : string) (ints : list Interaction)
  : list Z :=
  map i_article_id
    (List.filter (fun i => String.eqb (i_user_id i) user_id
                           && is_read_type (i_interaction_type i)) ints).

(** [ORDER BY trending_score DESC, engagement_score DESC], as a stable
    insertion sort (rows that tie keep the table order). *)
Definition ranks_before (x y : Z * Article) : bool :=
  (a_trending_score y.2 <? a_trending_score x.2)
  || ((a_trending_score x.2 =? a_trending_score y.2)
      && (a_engagement_score y.2 <=? a_engagement_score x.2)).

Fixpoint insert_ranked (x : Z * Article) (l : list (Z * Article))
  : list (Z * Article) :=
  match l with
  | [] => [x]
  | y :: l' => if ranks_before x y then x :: y :: l' else y :: insert_ranked x l'
  end.

Fixpoint sort_ranked (l : list (Z * Article)) : list (Z * Article) :=
  match l with
  | [] => []
  | x :: l' => insert_ranked x (sort_ranked l')
  end.

(** The fallback query: published rows, [AND category = ANY(%s)] when
    [req_data.categories] is a nonempty list, [AND id NOT IN (...)] when
    [exclude_read], ordered, [LIMIT limit]. *)
Definition trending_rows (tbl : gmap Z Article) (ints : list Interaction)
    (user_id : string) (req : RecReq) : list (Z * Article) :=
  let rows := List.filter (fun r => is_published r.2) (map_to_list tbl) in
  let rows := match rq_categories req with
              | Some ((_ :: _) as cats) =>
                  List.filter (fun r => existsb (String.eqb (a_category r.2)) cats) rows
              | _ => rows
              end in
  let rows := if rq_exclude_read req
              then List.filter (fun r => negb (existsb (Z.eqb r.1)
                                          (read_article_ids user_id ints))) rows
              else rows in
  take (Z.to_nat (rq_limit req)) (sort_ranked rows).

(* ------------------------------------------------------------------ *)
(** ** Effects: state, exceptions and a log of the calls made *)

Inductive Exn := RedisError | DbError | NameError.

Inductive Op :=
| OpRedisConnect
| OpRedisGet (key : string)
| OpRedisSetex (key : string)
| OpSelectRecCache
| OpSelectArticlesByIds (ids : list Z)
| OpSelectTrending.

Definition M (A : Type) : Type :=
  World * list Op -> (Exn + A) * (World * list Op).

#[global] Instance M_ret : MRet M := fun A a s => (inr a, s).
#[global] Instance M_bind : MBind M := fun A B f m s =>
  match m s with
  | (inl e, s') => (inl e, s')
  | (inr a, s') => f a s'
  end.

Definition raise {A} (e : Exn) : M A := fun s => (inl e, s).

(** [try: m except Exception: h]. *)
Definition catch {A} (m : M A) (h : Exn -> M A) : M A := fun s =>
  match m s with
  | (inl e, s') => h e s'
  | r => r
  end.

Definition emit (o : Op) : M unit := fun s => (inr tt, (s.1, s.2 ++ [o])).
Definition get_world : M World := fun s => (inr s.1, s).
Definition put_world (w : World) : M unit := fun s => (inr tt, (w, s.2)).

Definition run {A} (m : M A) (w : World) : (Exn + A) * (World * list Op) :=
  m (w, []).

(** TTLs are in seconds, the clock in microseconds. *)
Definition us_per_s : Z := 1000000.

(** [get_redis()]: connecting (and pinging) may fail. *)
Definition get_redis : M unit :=
  emit OpRedisConnect ;;
  w ← get_world ;
  if w_redis_connect_ok w then mret tt else raise RedisError.

(** [redis_client.get(key)] followed by the truthiness test and
    deserialisation: an unexpired entry comes back as the response
    stored there (the JSON round trip is the identity). *)
Definition redis_get (key : string) : M (option Response) :=
  emit (OpRedisGet key) ;;
  w ← get_world ;
  if w_redis_get_ok w then
    mret (match w_redis w !! key with
          | Some (v, exp) => if w_now w <? exp then Some v else None
          | None => None
          end)
  else raise RedisError.

Definition redis_setex (key : string) (ttl : Z) (v : Response) : M unit :=
  emit (OpRedisSetex key) ;;
  w ← get_world ;
  if w_redis_set_ok w then
    put_world (set_redis w (<[key := (v, w_now w + ttl * us_per_s)]> (w_redis w)))
  else raise RedisError.

Definition select_rec_cache (user_id : string) : M (option CachedRec) :=
  emit OpSelectRecCache ;;
  w ← get_world ;
  if w_rec_cache_ok w
  then mret (latest_active user_id (w_now w) (w_rec_cache w))
  else raise DbError.

Definition select_articles_by_ids (ids : list Z) : M (list (Z * Article)) :=
  emit (OpSelectArticlesByIds ids) ;;
  w ← get_world ;
  if w_articles_ok w then mret (articles_by_ids (w_articles w) ids)
  else raise DbError.

Definition select_trending (user_id : string) (req : RecReq)
  : M (list (Z * Article)) :=
  emit OpSelectTrending ;;
  w ← get_world ;
  if w_articles_ok w
  then mret (trending_rows (w_articles w) (w_interactions w) user_id req)
  else raise DbError.

(* ------------------------------------------------------------------ *)
(** ** [get_recommendations] *)

(** [redis_client.setex(cache_key, 3600, ...)] inside its own
    [try/except]: when [get_redis()] failed, [redis_client] is unbound and
    the call raises [NameError], caught there as well. *)
Definition cache_in_redis (client : option unit) (cache_key : string)
    (response : Response) : M unit :=
  catch (match client with
         | Some _ => redis_setex cache_key 3600 response
         | None => raise NameError
         end) (fun _ => mret tt).

(** The first [try] block: [redis_client = get_redis()], then
    [redis_client.get(cache_key)]; any error is logged and ignored.  The
    first component records whether [redis_client] got bound. *)
Definition check_redis (cache_key : string) : M (option unit * option Response) :=
  client ← catch (get_redis ;; mret (Some tt)) (fun _ => mret None) ;
  match client with
  | None => mret (None, None)
  | Some _ =>
      hit ← catch (redis_get cache_key) (fun _ => mret None) ;
      mret (client, hit)
  end.

Definition trending_fallback (user_id : string) (req : RecReq)
    (cache_key : string) (client : option unit) : M Response :=
  articles ← select_trending user_id req ;
  w ← get_world ;
  let response := mkResponse articles "trending_fallback" (w_now w)
                    (w_now w + 3600 * us_per_s) in
  cache_in_redis client cache_key response ;;
  mret response.

(** The [with get_postgres_cursor() as cursor:] block. *)
Definition from_database (user_id : string) (req : RecReq)
    (cache_key : string) (client : option unit) : M Response :=
  cached_rec ← select_rec_cache user_id ;
  match cached_rec with
  | Some c =>
      let article_ids := py_slice_to (cr_recommended_articles c) (rq_limit req) in
      match article_ids with
      | [] => trending_fallback user_id req cache_key client
      | _ :: _ =>
          articles ← select_articles_by_ids article_ids ;
          let response := mkResponse articles (cr_model_ensemble c)
                            (cr_cache_timestamp c) (cr_expiry_timestamp c) in
          cache_in_redis client cache_key response ;;
          mret response
      end
  | None => trending_fallback user_id req cache_key client
  end.

Inductive HttpResult :=
| HttpOk (r : Response)
| HttpError (status : Z) (message : string).

Definition failure_message : string := "Failed to get recommendations".

(** The body shared by both frameworks, under the outer
    [try/except Exception] that turns any error into the generic 500. *)
Definition resolve (user_id : string) (req : RecReq) (cache_key : string)
  : M HttpResult :=
  catch ('(client, hit) ← check_redis cache_key ;
         match hit with
         | Some r => mret (HttpOk r)
         | None => r ← from_database user_id req cache_key client ;
                   mret (HttpOk r)
         end)
        (fun _ => mret (HttpError 500 failure_message)).

(** [req_data.dict()] of a [RecommendationRequest]. *)
Definition request_dict (req : RecReq) : kwargs :=
  [("user_id", match rq_user_id req with Some u => VStr u | None => VNone end);
   ("limit", VInt (rq_limit req));
   ("categories", match rq_categories req with
                  | Some cs => VList (map VStr cs)
                  | None => VNone
                  end);
   ("exclude_read", VBool (rq_exclude_read req));
   ("diversity_weight", VFloat (rq_diversity_weight req))].

Definition memo_key (user_id : string) (kw : kwargs) : string :=
  "recommendations:" +:+ user_id +:+ ":" +:+ cache_key_generator kw.

(** [req_data.user_id = user_id] on the validated request. *)
Definition with_user (user_id : string) (req : RecReq) : RecReq :=
  mkRecReq (Some user_id) (rq_limit req) (rq_categories req)
    (rq_exclude_read req) (rq_diversity_weight req).

Definition fastapi_cache_key (user_id : string) (req : RecReq) : string :=
  memo_key user_id (request_dict (with_user user_id req)).

(** FastAPI: the body has already been validated into [req_data];
    [req_data.user_id = user_id], and the key hashes [req_data.dict()]. *)
Definition get_recommendations_fastapi (user_id : string) (req : RecReq)
  : M HttpResult :=
  resolve user_id (with_user user_id req) (fastapi_cache_key user_id req).

Fixpoint dict_get (k : string) (d : kwargs) : option PyVal :=
  match d with
  | [] => None
  | (k', v) :: d' => if String.eqb k k' then Some v else dict_get k d'
  end.

(** [d[k] = v]: replace in place, or append a new key. *)
Fixpoint dict_set (k : string) (v : PyVal) (d : kwargs) : kwargs :=
  match d with
  | [] => [(k, v)]
  | (k', v') :: d' => if String.eqb k k' then (k', v) :: d' else (k', v') :: dict_set k v d'
  end.

Definition str_list (xs : list PyVal) : option (list string) :=
  mapM (fun x => match x with VStr s => Some s | _ => None end) xs.

(** [RecommendationRequest( **data)]: unknown keys are ignored; a missing
    key takes its default.  This is an approximation of pydantic: values
    are accepted in their exact JSON type only (its lax coercions, such as
    numeric strings, integral floats or booleans for [limit], are not
    modelled), a float [diversity_weight] is not checked against
    [ge=0.0, le=1.0], and the UUID format of [user_id] is not checked.
    Statements that must hold whatever pydantic decides are made about
    [flask_handler] with an arbitrary validator. *)
Definition parse_request (data : kwargs) : option RecReq :=
  user_id ← match dict_get "user_id" data with
            | None | Some VNone => Some None
            | Some (VStr s) => Some (Some s)
            | _ => None
            end ;
  limit ← match dict_get "limit" data with
          | None => Some 20
          | Some (VInt n) => if (1 <=? n) && (n <=? 100) then Some n else None
          | _ => None
          end ;
  categories ← match dict_get "categories" data with
               | None | Some VNone => Some None
               | Some (VList xs) => cs ← str_list xs ; Some (Some cs)
               | _ => None
               end ;
  exclude_read ← match dict_get "exclude_read" data with
                 | None => Some true
                 | Some (VBool b) => Some b
                 | _ => None
                 end ;
  diversity_weight ← match dict_get "diversity_weight" data with
                     | None => Some "0.3"
                     | Some (VFloat r) => Some r
                     | Some (VInt n) => if (0 <=? n) && (n <=? 1)
                                        then Some (pretty n +:+ ".0") else None
                     | _ => None
                     end ;
  Some (mkRecReq user_id limit categories exclude_read diversity_weight).

(** Flask: [data = request.get_json() or {}], [data['user_id'] = user_id],
    validation (400 on failure), and the key hashes the raw [data].
    [validate data] is the request pydantic builds from [data], [None]
    when it raises [ValidationError]. *)
Definition flask_handler (validate : kwargs -> option RecReq) (user_id : string)
    (body : kwargs) : M HttpResult :=
  let data := dict_set "user_id" (VStr user_id) body in
  match validate data with
  | None => mret (HttpError 400 "Validation error")
  | Some req => resolve user_id req (memo_key user_id data)
  end.

(** The route as deployed, with [RecommendationRequest( **data)] modelled
    by [parse_request]. *)
Definition get_recommendations_flask (user_id : string) (body : kwargs)
  : M HttpResult :=
  flask_handler parse_request user_id body.

(** What a Redis lookup of [key] yields when the client connects and
    [get] succeeds: an unexpired entry. *)
Definition memo_hit (w : World) (key : string) : option Response :=
  if w_redis_connect_ok w && w_redis_get_ok w then
    match w_redis w !! key with
    | Some (v, exp) => if w_now w <? exp then Some v else None
    | None => None
    end
  else None.

(** The same world with the Redis side replaced. *)
Definition with_redis (w : World) (m : gmap string (Response * Z))
    (connect_ok get_ok set_ok : bool) : World :=
  mkWorld (w_now w) m connect_ok get_ok set_ok (w_rec_cache w)
    (w_rec_cache_ok w) (w_articles w) (w_articles_ok w) (w_interactions w).

(** The outcome of the PostgreSQL block, read off [from_database]: which
    response it builds, or that a query raised. *)
Definition fallback_outcome (w : World) (user_id : string) (req : RecReq)
  : Exn + Response :=
  if w_articles_ok w then
    inr (mkResponse (trending_rows (w_articles w) (w_interactions w) user_id req)
           "trending_fallback" (w_now w) (w_now w + 3600 * us_per_s))
  else inl DbError.

Definition database_outcome (w : World) (user_id : string) (req : RecReq)
  : Exn + Response :=
  if w_rec_cache_ok w then
    match latest_active user_id (w_now w) (w_rec_cache w) with
    | Some c =>
        match py_slice_to (cr_recommended_articles c) (rq_limit req) with
        | [] => fallback_outcome w user_id req
        | ids =>
            if w_articles_ok w then
              inr (mkResponse (articles_by_ids (w_articles w) ids)
                     (cr_model_ensemble c) (cr_cache_timestamp c)
                     (cr_expiry_timestamp c))
            else inl DbError
        end
    | None => fallback_outcome w user_id req
    end
  else inl DbError.

Definition resolve_outcome (w : World) (user_id : string) (req : RecReq)
    (cache_key : string) : HttpResult :=
  match memo_hit w cache_key with
  | Some r => HttpOk r
  | None =>
      match database_outcome w user_id req with
      | inr r => HttpOk r
      | inl _ => HttpError 500 failure_message
      end
  end.


(* ------------------------------------------------------------------ *)
(** ** [paginate_query_results] *)

(** The dict it returns. *)
Record Page (A : Type) := mkPage {
  pg_data : list A;
  pg_page : Z;
  pg_per_page : Z;
  pg_total : Z;
  pg_pages : Z;
  pg_has_next : bool;
  pg_has_prev : bool
}.
Arguments mkPage {A}.
Arguments pg_data {A}.
Arguments pg_page {A}.
Arguments pg_per_page {A}.
Arguments pg_total {A}.
Arguments pg_pages {A}.
Arguments pg_has_next {A}.
Arguments pg_has_prev {A}.

(** [xs[i:j]]: a negative bound counts from the end, both are clamped to
    [0, len(xs)], and [i >= j] gives the empty list. *)
Definition py_slice {A} (xs : list A) (i j : Z) : list A :=
  let n := Z.of_nat (length xs) in
  let norm k := if k <? 0 then Z.max 0 (k + n) else Z.min k n in
  take (Z.to_nat (norm j - norm i)) (drop (Z.to_nat (norm i)) xs).

(** [None] is the [ZeroDivisionError] of [// per_page] when
    [per_page = 0]; Python's [//] is floor division, as [Z.div]. *)
Definition paginate_query_results {A} (results : list A) (page per_page : Z)
  : option (Page A) :=
  let total := Z.of_nat (length results) in
  if per_page =? 0 then None
  else
    let pages := (total + per_page - 1) / per_page in
    let start := (page - 1) * per_page in
    let end_ := start + per_page in
    Some (mkPage (py_slice results start end_) page per_page total pages
            (page <? pages) (1 <? page)).

(* ------------------------------------------------------------------ *)
(** ** [sanitize_html] *)

Definition dangerous_tags : list string :=
  ["script"; "iframe"; "object"; "embed"; "form"; "input"].

(** A literal under [re.IGNORECASE]: the pattern, in lower case, is
    compared with the lowered text (no Latin-1 character other than
    A-Z lowers to an ASCII letter). *)
Definition ci_prefix (p cs : list ascii) : bool := is_prefix p (map lower_char cs).

(** [[^>]*>]: everything up to the first [>], which is consumed. *)
Fixpoint skip_past_gt (cs : list ascii) : option (list ascii) :=
  match cs with
  | [] => None
  | c :: cs' => if Ascii.eqb c ">"%char then Some cs' else skip_past_gt cs'
  end.

(** [.*?</tag>] under [re.DOTALL]: up to the first closing tag. *)
Fixpoint find_close (close cs : list ascii) : option (list ascii) :=
  if ci_prefix close cs then Some (drop (length close) cs)
  else match cs with
       | [] => None
       | _ :: cs' => find_close close cs'
       end.

Definition open_tag (tag : list ascii) : list ascii := "<"%char :: tag.
Definition close_tag (tag : list ascii) : list ascii :=
  "<"%char :: "/"%char :: tag ++ [">"%char].

(** A match of [<tag[^>]*>.*?</tag>] at the start of [cs]: what follows
    it.  The greedy [[^>]*] can only stop at the first [>]. *)
Definition match_element (tag cs : list ascii) : option (list ascii) :=
  if ci_prefix (open_tag tag) cs then
    rest ← skip_past_gt (drop (length (open_tag tag)) cs) ;
    find_close (close_tag tag) rest
  else None.

(** A match of [<tag[^>]*/?>]: the [[^>]*] takes any [/] before the first
    [>], so the match ends at that [>]. *)
Definition match_tag (tag cs : list ascii) : option (list ascii) :=
  if ci_prefix (open_tag tag) cs then skip_past_gt (drop (length (open_tag tag)) cs)
  else None.

(** [re.sub(pattern, '', s)]: scan left to right, delete each match and
    resume after it, otherwise keep one character.  Neither pattern
    matches the empty string, so every step consumes a character. *)
Fixpoint re_sub_fuel (fuel : nat) (m : list ascii -> option (list ascii))
    (cs : list ascii) : list ascii :=
  match fuel with
  | O => cs
  | S fuel' =>
      match m cs with
      | Some rest => re_sub_fuel fuel' m rest
      | None =>
          match cs with
          | [] => []
          | c :: cs' => c :: re_sub_fuel fuel' m cs'
          end
      end
  end.

Definition re_sub (m : list ascii -> option (list ascii)) (cs : list ascii)
  : list ascii :=
  re_sub_fuel (S (length cs)) m cs.

Definition sanitize_html (content : string) : string :=
  string_of_list_ascii
    (fold_left (fun cs tag =>
                  let t := list_ascii_of_string tag in
                  re_sub (match_tag t) (re_sub (match_element t) cs))
       dangerous_tags (list_ascii_of_string content)).

(* ------------------------------------------------------------------ *)
(** ** [validate_email] *)

(** The regular expressions [validate_email] needs: a character class, a
    greedy repetition [{n,}] of a class, concatenation, and [$]. *)
Inductive regex :=
| RxClass (p : ascii -> bool)
| RxRep (p : ascii -> bool) (min : nat)
| RxSeq (r1 r2 : regex)
| RxEnd.

(** Backtracking with a continuation: the greedy repetition first tries
    one more character, then stopping. *)
Fixpoint rep_match (p : ascii -> bool) (n : nat) (cs : list ascii)
    (k : list ascii -> bool) : bool :=
  match cs with
  | [] => (n =? 0)%nat && k []
  | c :: cs' => (p c && rep_match p (pred n) cs' k) || ((n =? 0)%nat && k cs)
  end.

Definition newline : ascii := "010"%char.

(** Without [re.MULTILINE], [$] matches at the end of the string and just
    before a newline that ends it. *)
Fixpoint rx_match (r : regex) (cs : list ascii) (k : list ascii -> bool) : bool :=
  match r with
  | RxClass p => match cs with c :: cs' => p c && k cs' | [] => false end
  | RxRep p n => rep_match p n cs k
  | RxSeq r1 r2 => rx_match r1 cs (fun rest => rx_match r2 rest k)
  | RxEnd =>
      match cs with
      | [] => k cs
      | [c] => Ascii.eqb c newline && k cs
      | _ => false
      end
  end.

(** [re.match]: anchored at the start, any end. *)
Definition re_match (r : regex) (s : string) : bool :=
  rx_match r (list_ascii_of_string s) (fun _ => true).

Definition is_one_of (chars : string) (c : ascii) : bool :=
  existsb (Ascii.eqb c) (list_ascii_of_string chars).

Definition email_local_char (c : ascii) : bool :=
  is_ascii_letter c || is_ascii_digit c || is_one_of "._%+-" c.

Definition email_domain_char (c : ascii) : bool :=
  is_ascii_letter c || is_ascii_digit c || is_one_of ".-" c.

(** [^[a-zA-Z0-9._%+-]+@[a-zA-Z0-9.-]+\.[a-zA-Z]{2,}$]. *)
Definition email_pattern : regex :=
  RxSeq (RxRep email_local_char 1)
    (RxSeq (RxClass (Ascii.eqb "@"%char))
       (RxSeq (RxRep email_domain_char 1)
          (RxSeq (RxClass (Ascii.eqb "."%char))
             (RxSeq (RxRep is_ascii_letter 2) RxEnd)))).

Definition validate_email (email : string) : bool := re_match email_pattern email.

(* ------------------------------------------------------------------ *)
(** ** [AuthManager.extract_token_from_header] *)

Definition extract_token_from_header (authorization_header : string)
  : option (list ascii) :=
  if String.eqb authorization_header "" then None
  else
    match py_split authorization_header with
    | [scheme; token] =>
        if decide (map lower_char scheme = list_ascii_of_string "bearer")
        then Some token else None
    | _ => None
    end.

(** Helper notions used by the statements below. *)

(** The rows [trending_rows] ranks, before the [LIMIT]. *)
Definition trending_candidates (tbl : gmap Z Article) (ints : list Interaction)
    (user_id : string) (req : RecReq) : list (Z * Article) :=
  let rows := List.filter (fun r => is_published r.2) (map_to_list tbl) in
  let rows := match rq_categories req with
              | Some ((_ :: _) as cats) =>
                  List.filter (fun r => existsb (String.eqb (a_category r.2)) cats) rows
              | _ => rows
              end in
  if rq_exclude_read req
  then List.filter (fun r => negb (existsb (Z.eqb r.1)
                                 (read_article_ids user_id ints))) rows
  else rows.

(** The conditions of the [WHERE] clause of the fallback query. *)
Definition trending_eligible (tbl : gmap Z Article) (ints : list Interaction)
    (user_id : string) (req : RecReq) (i : Z) (a : Article) : Prop :=
  tbl !! i = Some a /\ is_published a = true /\
  (forall cats, rq_categories req = Some cats -> cats <> [] -> In (a_category a) cats) /\
  (rq_exclude_read req = true -> ~ In i (read_article_ids user_id ints)).

(** Whether id [i] names a published article of the table. *)
Definition published_in (tbl : gmap Z Article) (i : Z) : bool :=
  match tbl !! i with Some a => is_published a | None => false end.

(** Both patterns start with [<]: a match deletes a nonempty prefix
    starting with [<]. *)
Definition lt_match (m : list ascii -> option (list ascii)) : Prop :=
  forall cs r, m cs = Some r ->
  exists p, cs = "<"%char :: p ++ r.

(** One iteration of the loop of [sanitize_html]: both substitutions for one tag. *)
Definition sanitize_pass (cs : list ascii) (tag : string) : list ascii :=
  let t := list_ascii_of_string tag in
  re_sub (match_tag t) (re_sub (match_element t) cs).

(** A dangerous tag [tl] written inside a broken tag [<p ... q>]. *)
Definition split_tag_input (p q tl : list ascii) : list ascii :=
  "<"%char :: p ++ "<"%char :: tl ++ ">"%char :: q ++ [">"%char].

(** What a pattern means: [rx_matches r cs rest] holds when [r] matches the
    part of [cs] before the suffix [rest]. *)
Fixpoint rx_matches (r : regex) (cs rest : list ascii) : Prop :=
  match r with
  | RxClass p => exists c, cs = c :: rest /\ p c = true
  | RxRep p n => exists xs, cs = xs ++ rest /\ (n <= length xs)%nat /\
                            Forall (fun c => p c = true) xs
  | RxSeq r1 r2 => exists mid, rx_matches r1 cs mid /\ rx_matches r2 mid rest
  | RxEnd => rest = cs /\ (cs = [] \/ cs = [newline])
  end.

(* ------------------------------------------------------------------ *)
(** ** Sample data *)

Definition sample_user : string := "3fa85f64-5717-4562-b3fc-2c963f66afa6".

(** [RecommendationRequest()] with its defaults. *)
Definition default_req : RecReq := mkRecReq None 20 None true "0.3".

Definition sample_response : Response :=
  mkResponse [(7, mkArticle Published "tech" 5 3)] "hybrid_v2" 0 3600000000.

Definition sample_entry (ids : list Z) : CachedRec :=
  mkCachedRec sample_user ids "hybrid_v2" 100 7200000000 true.

(** Article 1 is a draft, article 2 is published. *)
Definition sample_articles : gmap Z Article :=
  {[ 1 := mkArticle Draft "tech" 9 9; 2 := mkArticle Published "tech" 4 1 ]}.

(** Redis working, with the given entries; the given durable cache. *)
Definition sample_world (memo : gmap string (Response * Z))
    (connect_ok : bool) (cache : list CachedRec) (cache_ok : bool) : World :=
  mkWorld 1000 memo connect_ok true true cache cache_ok sample_articles true [].

(** Twenty-one published articles with distinct trending scores. *)
Definition many_articles : gmap Z Article :=
  list_to_map (map (fun i => (i, mkArticle Published "news" i 0)) (seqZ 1 21)).

Definition busy_world : World :=
  mkWorld 1000 ∅ true true true [] true many_articles true [].

(** Two Flask bodies whose raw [data] dicts print to the same
    [key=value] parts once joined with [:]. *)
Definition body_limit_100 : kwargs := [("aaa", VStr "1"); ("limit", VInt 100)].
Definition body_colliding : kwargs := [("aaa", VStr "1:limit=100")].

(* ================================================================== *)
(** * Properties *)

(** ** Python's string splitting *)

Lemma split_sep_fuel_nonempty fuel sep cs cur :
  split_sep_fuel fuel sep cs cur <> [].
Proof.
  revert cs cur; induction fuel as [|fuel IH]; intros cs cur; simpl.
  - discriminate.
  - destruct (is_prefix sep cs); [discriminate|].
    destruct cs; [discriminate|apply IH].
Qed.

Lemma py_split_sep_nonempty s sep : py_split_sep s sep <> [].
Proof. apply split_sep_fuel_nonempty. Qed.

(** ** Scores *)

Lemma title_points_ge_5 n : 5 <= title_points n.
Proof. unfold title_points. repeat case_match; lia. Qed.

Lemma structure_points_ge_5 ps : 5 <= structure_points ps.
Proof. unfold structure_points. repeat case_match; lia. Qed.

Lemma readability_points_ge_10 ss : ss <> [] -> 10 <= readability_points ss.
Proof.
  intros Hne. destruct ss as [|s ss]; [congruence|].
  unfold readability_points. repeat case_match; lia.
Qed.

Lemma readability_points_le_20 ss : readability_points ss <= 20.
Proof. unfold readability_points. repeat case_match; lia. Qed.

Lemma length_points_bounds n : 0 <= length_points n <= 30.
Proof. unfold length_points. repeat case_match; lia. Qed.

Lemma summary_points_bounds s : 0 <= summary_points s <= 15.
Proof. unfold summary_points. repeat case_match; lia. Qed.

Lemma title_points_le_20 n : title_points n <= 20.
Proof. unfold title_points. repeat case_match; lia. Qed.

Lemma structure_points_le_15 ps : structure_points ps <= 15.
Proof. unfold structure_points. repeat case_match; lia. Qed.

Lemma round2_integer_scores :
  forallb (fun n => f_leb (f_of_Z 20) (py_round2 (f_of_Z n))) (seqZ 20 81) = true.
Proof. vm_compute. reflexivity. Qed.

Lemma round2_integer_score_ge_20 n :
  20 <= n <= 100 -> f_leb (f_of_Z 20) (py_round2 (f_of_Z n)) = true.
Proof.
  intros Hn.
  pose proof round2_integer_scores as H.
  rewrite forallb_forall in H. apply H.
  apply list_elem_of_In, elem_of_seqZ. lia.
Qed.

(** C10: [calculate_quality_score] never scores below 20.  The title
    component is at least 5; [content.split('.')] is never empty, so the
    readability branch always runs and gives at least 10; the structure
    component is at least 5; hence the total, and the rounded result, is
    at least 20, also for empty content and title. *)
Theorem quality_score_at_least_20 (content title : string)
    (summary : option string) :
  5 <= title_points (Z.of_nat (length (py_split title)))
  /\ py_split_sep content "." <> []
  /\ 10 <= readability_points (py_split_sep content ".")
  /\ 5 <= structure_points (py_split_sep content (String "010"%char (String "010"%char EmptyString)))
  /\ 20 <= quality_raw content title summary
  /\ f_leb (f_of_Z 20) (calculate_quality_score content title summary) = true.
Proof.
  pose proof (py_split_sep_nonempty content ".") as Hne.
  pose proof (readability_points_ge_10 _ Hne) as Hr.
  pose proof (title_points_ge_5 (Z.of_nat (length (py_split title)))) as Ht.
  pose proof (structure_points_ge_5
    (py_split_sep content (String "010"%char (String "010"%char EmptyString)))) as Hs.
  assert (Hraw : 20 <= quality_raw content title summary).
  { unfold quality_raw.
    pose proof (length_points_bounds (calculate_word_count content)).
    pose proof (summary_points_bounds summary). lia. }
  assert (Hup : quality_raw content title summary <= 100).
  { unfold quality_raw.
    pose proof (length_points_bounds (calculate_word_count content)).
    pose proof (summary_points_bounds summary).
    pose proof (title_points_le_20 (Z.of_nat (length (py_split title)))).
    pose proof (readability_points_le_20 (py_split_sep content ".")).
    pose proof (structure_points_le_15
      (py_split_sep content (String "010"%char (String "010"%char EmptyString)))).
    lia. }
  repeat split; try assumption.
  unfold calculate_quality_score. apply round2_integer_score_ge_20. lia.
Qed.

(** C8: [calculate_reading_time] is [max(1, round(word_count / 200))]
    and so at least 1, for every content, the empty one included. *)
Theorem reading_time_at_least_1 (content : string) :
  calculate_reading_time content
    = Z.max 1 (default 0 (py_round (int_truediv (calculate_word_count content) 200)))
  /\ 1 <= calculate_reading_time content
  /\ calculate_reading_time "" = 1.
Proof.
  unfold calculate_reading_time, calculate_word_count.
  destruct (py_round _); simpl; repeat split; lia.
Qed.

(** ** The order of the keys *)

Lemma ascii_compare_trans (a b c : ascii) :
  Ascii.compare a b = Lt -> Ascii.compare b c = Lt -> Ascii.compare a c = Lt.
Proof. unfold Ascii.compare. rewrite !N.compare_lt_iff. lia. Qed.

Lemma ascii_compare_refl (a : ascii) : Ascii.compare a a = Eq.
Proof. unfold Ascii.compare. apply N.compare_refl. Qed.

Lemma string_compare_trans (s1 s2 s3 : string) :
  String.compare s1 s2 = Lt -> String.compare s2 s3 = Lt ->
  String.compare s1 s3 = Lt.
Proof.
  revert s2 s3; induction s1 as [|c1 s1 IH]; intros [|c2 s2] [|c3 s3];
    simpl; try discriminate; try reflexivity.
  destruct (Ascii.compare c1 c2) eqn:E12; try discriminate;
  destruct (Ascii.compare c2 c3) eqn:E23; try discriminate; intros H12 H23.
  - apply Ascii.compare_eq_iff in E12, E23. subst.
    rewrite ascii_compare_refl. eauto.
  - apply Ascii.compare_eq_iff in E12. subst. now rewrite E23.
  - apply Ascii.compare_eq_iff in E23. subst. now rewrite E12.
  - now rewrite (ascii_compare_trans _ _ _ E12 E23).
Qed.

Definition key_lt (x y : string * PyVal) : Prop := String.compare x.1 y.1 = Lt.

Lemma insert_item_perm x (l : kwargs) : Permutation (insert_item x l) (x :: l).
Proof.
  induction l as [|y l IH]; simpl; [reflexivity|].
  destruct (String.compare x.1 y.1); try reflexivity.
  rewrite IH. apply perm_swap.
Qed.

Lemma sort_items_perm (l : kwargs) : Permutation (sort_items l) l.
Proof.
  induction l as [|x l IH]; simpl; [reflexivity|].
  rewrite insert_item_perm, IH. reflexivity.
Qed.

Lemma insert_item_sorted x (l : kwargs) :
  StronglySorted key_lt l -> (forall y, In y l -> x.1 <> y.1) ->
  StronglySorted key_lt (insert_item x l).
Proof.
  induction l as [|y l IH]; intros Hs Hk; simpl.
  - constructor; [constructor|constructor].
  - inversion Hs as [|? ? Hs' Hall]; subst.
    destruct (String.compare x.1 y.1) eqn:Exy.
    + exfalso. apply String.compare_eq_iff in Exy. apply (Hk y); [left|]; auto.
    + constructor; [assumption|]. constructor; [exact Exy|].
      eapply Forall_impl; [exact Hall|]. intros z Hz.
      exact (string_compare_trans _ _ _ Exy Hz).
    + constructor.
      * apply IH; [assumption|]. intros z Hz. apply Hk. right. exact Hz.
      * eapply Permutation_Forall; [symmetry; apply insert_item_perm|].
        constructor; [|exact Hall].
        unfold key_lt. rewrite String.compare_antisym, Exy. reflexivity.
Qed.

Lemma sort_items_sorted (l : kwargs) :
  NoDup (map fst l) -> StronglySorted key_lt (sort_items l).
Proof.
  induction l as [|x l IH]; intros Hnd; simpl; [constructor|].
  inversion Hnd as [|? ? Hnin Hnd']; subst.
  apply insert_item_sorted; [auto|].
  intros y Hy Heq. apply Hnin.
  apply (Permutation_in _ (sort_items_perm l)) in Hy.
  rewrite Heq. apply list_elem_of_In, in_map. exact Hy.
Qed.

Lemma sorted_items_unique (l1 l2 : kwargs) :
  StronglySorted key_lt l1 -> StronglySorted key_lt l2 ->
  Permutation l1 l2 -> l1 = l2.
Proof.
  revert l2; induction l1 as [|x l1 IH]; intros l2 H1 H2 Hp.
  - symmetry. apply Permutation_nil. exact Hp.
  - destruct l2 as [|y l2].
    { apply Permutation_length in Hp. discriminate. }
    inversion H1 as [|? ? H1' A1]; subst.
    inversion H2 as [|? ? H2' A2]; subst.
    assert (Hx : In x (y :: l2)) by (eapply Permutation_in; [exact Hp|left; auto]).
    assert (Hy : In y (x :: l1))
      by (eapply Permutation_in; [symmetry; exact Hp|left; auto]).
    destruct Hx as [<-|Hx].
    { f_equal. apply IH; auto. eapply Permutation_cons_inv. exact Hp. }
    destruct Hy as [->|Hy].
    { f_equal. apply IH; auto. eapply Permutation_cons_inv. exact Hp. }
    exfalso. rewrite List.Forall_forall in A1, A2.
    pose proof (A1 y Hy) as Lxy. pose proof (A2 x Hx) as Lyx.
    unfold key_lt in *. rewrite String.compare_antisym, Lxy in Lyx.
      discriminate.
Qed.

Lemma sort_items_permutation_invariant (kw1 kw2 : kwargs) :
  NoDup (map fst kw1) -> Permutation kw1 kw2 -> sort_items kw1 = sort_items kw2.
Proof.
  intros Hnd Hp.
  assert (Hnd2 : NoDup (map fst kw2)).
  { assert (Hpm : Permutation (map fst kw1) (map fst kw2))
      by (apply Permutation_map; exact Hp).
    rewrite <- Hpm. exact Hnd. }
  apply sorted_items_unique.
  - apply sort_items_sorted. exact Hnd.
  - apply sort_items_sorted. exact Hnd2.
  - rewrite !sort_items_perm. exact Hp.
Qed.

(** C5: the key depends on the keyword arguments only through their
    bindings, never through the order in which they are supplied (the
    keys of a dict are distinct). *)
Theorem cache_key_order_independent (kw1 kw2 : kwargs) :
  NoDup (map fst kw1) -> Permutation kw1 kw2 ->
  cache_key_generator kw1 = cache_key_generator kw2.
Proof.
  intros Hnd Hp. unfold cache_key_generator, cache_key_string.
  rewrite (sort_items_permutation_invariant kw1 kw2 Hnd Hp). reflexivity.
Qed.

Lemma cache_key_order_independent_witness :
  NoDup (map fst [("a", VInt 1); ("b", VInt 2)])
  /\ Permutation [("a", VInt 1); ("b", VInt 2)] [("b", VInt 2); ("a", VInt 1)]
  /\ cache_key_generator [("a", VInt 1); ("b", VInt 2)]
     = cache_key_generator [("b", VInt 2); ("a", VInt 1)].
Proof.
  assert (Hnd : NoDup (map fst [("a", VInt 1); ("b", VInt 2)])).
  { simpl. constructor; [|constructor; [|constructor]].
    - intros Hin. apply list_elem_of_In in Hin. simpl in Hin.
      destruct Hin as [H|[]]. discriminate.
    - intros Hin. apply list_elem_of_In in Hin. destruct Hin. }
  assert (Hp : Permutation [("a", VInt 1); ("b", VInt 2)] [("b", VInt 2); ("a", VInt 1)])
    by apply perm_swap.
  split; [exact Hnd|]. split; [exact Hp|].
  exact (cache_key_order_independent _ _ Hnd Hp).
Defined.

(** ** Running the handlers *)

Ltac unfold_monad :=
  unfold mbind, M_bind, mret, M_ret, raise, catch, emit, get_world, put_world.

Lemma get_redis_run w l :
  get_redis (w, l) =
  (if w_redis_connect_ok w then inr tt else inl RedisError,
   (w, l ++ [OpRedisConnect])).
Proof. unfold get_redis; unfold_monad; simpl. destruct (w_redis_connect_ok w); reflexivity. Qed.

Lemma redis_get_run key w l :
  redis_get key (w, l) =
  (if w_redis_get_ok w then
     inr (match w_redis w !! key with
          | Some (v, exp) => if w_now w <? exp then Some v else None
          | None => None
          end)
   else inl RedisError,
   (w, l ++ [OpRedisGet key])).
Proof. unfold redis_get; unfold_monad; simpl. destruct (w_redis_get_ok w); reflexivity. Qed.

Lemma check_redis_run key w l :
  check_redis key (w, l) =
  (inr (if w_redis_connect_ok w then Some tt else None, memo_hit w key),
   (w, if w_redis_connect_ok w then (l ++ [OpRedisConnect]) ++ [OpRedisGet key]
       else l ++ [OpRedisConnect])).
Proof.
  unfold check_redis, memo_hit, get_redis, redis_get; unfold_monad; cbn.
  destruct (w_redis_connect_ok w) eqn:E1, (w_redis_get_ok w) eqn:E2;
    cbn; rewrite ?E1, ?E2; cbn; reflexivity.
Qed.

Lemma select_rec_cache_run user_id w l :
  select_rec_cache user_id (w, l) =
  (if w_rec_cache_ok w then inr (latest_active user_id (w_now w) (w_rec_cache w))
   else inl DbError,
   (w, l ++ [OpSelectRecCache])).
Proof. unfold select_rec_cache; unfold_monad; simpl. destruct (w_rec_cache_ok w); reflexivity. Qed.

Lemma select_articles_by_ids_run ids w l :
  select_articles_by_ids ids (w, l) =
  (if w_articles_ok w then inr (articles_by_ids (w_articles w) ids) else inl DbError,
   (w, l ++ [OpSelectArticlesByIds ids])).
Proof. unfold select_articles_by_ids; unfold_monad; simpl. destruct (w_articles_ok w); reflexivity. Qed.

Lemma select_trending_run user_id req w l :
  select_trending user_id req (w, l) =
  (if w_articles_ok w
   then inr (trending_rows (w_articles w) (w_interactions w) user_id req)
   else inl DbError,
   (w, l ++ [OpSelectTrending])).
Proof. unfold select_trending; unfold_monad; simpl. destruct (w_articles_ok w); reflexivity. Qed.

Lemma cache_in_redis_run client key v s :
  exists s', cache_in_redis client key v s = (inr tt, s').
Proof.
  destruct s as [w l]. unfold cache_in_redis, redis_setex; unfold_monad; cbn.
  destruct client; [destruct w as [? ? ? ? [|] ? ? ? ? ?]; cbn|cbn];
    eexists; reflexivity.
Qed.

Lemma bind_run {A B} (m : M A) (f : A -> M B) s :
  (x ← m ; f x) s =
  match m s with
  | (inl e, s') => (inl e, s')
  | (inr a, s') => f a s'
  end.
Proof. reflexivity. Qed.

Lemma get_world_bind {B} (f : World -> M B) s : (w ← get_world ; f w) s = f s.1 s.
Proof. reflexivity. Qed.

Lemma cache_then_ret {A} client key v (a : A) s :
  fst ((cache_in_redis client key v ;; mret a) s) = inr a.
Proof.
  rewrite bind_run. destruct (cache_in_redis_run client key v s) as [s' ->].
  reflexivity.
Qed.

Lemma trending_fallback_result user_id req key client w l :
  fst (trending_fallback user_id req key client (w, l)) = fallback_outcome w user_id req.
Proof.
  unfold trending_fallback, fallback_outcome.
  rewrite bind_run, select_trending_run.
  destruct (w_articles_ok w); [|reflexivity].
  rewrite get_world_bind. apply cache_then_ret.
Qed.

Lemma from_database_result user_id req key client w l :
  fst (from_database user_id req key client (w, l)) = database_outcome w user_id req.
Proof.
  unfold from_database, database_outcome.
  rewrite bind_run, select_rec_cache_run.
  destruct (w_rec_cache_ok w); [|reflexivity].
  destruct (latest_active user_id (w_now w) (w_rec_cache w)) as [c|];
    [|apply trending_fallback_result].
  destruct (py_slice_to (cr_recommended_articles c) (rq_limit req)) as [|i ids];
    [apply trending_fallback_result|].
  rewrite bind_run, select_articles_by_ids_run.
  destruct (w_articles_ok w); [|reflexivity].
  apply cache_then_ret.
Qed.

Lemma resolve_result user_id req key w l :
  fst (resolve user_id req key (w, l)) = inr (resolve_outcome w user_id req key).
Proof.
  unfold resolve, resolve_outcome, catch at 1.
  rewrite bind_run, check_redis_run.
  destruct (memo_hit w key) as [r|]; [reflexivity|].
  rewrite bind_run.
  match goal with
  | |- context [from_database user_id req key ?c (w, ?l')] =>
      pose proof (from_database_result user_id req key c w l') as H;
      destruct (from_database user_id req key c (w, l')) as [[e|r] s'];
      simpl in H; rewrite <- H; reflexivity
  end.
Qed.

(** ** Stages of the handler *)

Lemma memo_hit_connected w key r :
  memo_hit w key = Some r -> w_redis_connect_ok w = true.
Proof. unfold memo_hit. destruct (w_redis_connect_ok w); [reflexivity|discriminate]. Qed.

Lemma resolve_memo_hit user_id req key w l r :
  memo_hit w key = Some r ->
  resolve user_id req key (w, l) =
  (inr (HttpOk r), (w, (l ++ [OpRedisConnect]) ++ [OpRedisGet key])).
Proof.
  intros H. pose proof (memo_hit_connected _ _ _ H) as Hc.
  unfold resolve, catch at 1. rewrite bind_run, check_redis_run, H, Hc.
  reflexivity.
Qed.

Lemma from_database_db_fail user_id req key client w l :
  w_rec_cache_ok w = false \/ w_articles_ok w = false ->
  exists l', from_database user_id req key client (w, l) = (inl DbError, (w, l')).
Proof.
  intros H. unfold from_database. rewrite bind_run, select_rec_cache_run.
  destruct (w_rec_cache_ok w) eqn:Erc; [|eexists; reflexivity].
  assert (Ha : w_articles_ok w = false) by (destruct H; congruence).
  destruct (latest_active user_id (w_now w) (w_rec_cache w)) as [c|].
  - destruct (py_slice_to (cr_recommended_articles c) (rq_limit req)) as [|i ids].
    + unfold trending_fallback. rewrite bind_run, select_trending_run, Ha.
      eexists; reflexivity.
    + rewrite bind_run, select_articles_by_ids_run, Ha. eexists; reflexivity.
  - unfold trending_fallback. rewrite bind_run, select_trending_run, Ha.
    eexists; reflexivity.
Qed.

Lemma resolve_db_fail user_id req key w l :
  memo_hit w key = None ->
  w_rec_cache_ok w = false \/ w_articles_ok w = false ->
  exists l', resolve user_id req key (w, l) =
             (inr (HttpError 500 failure_message), (w, l')).
Proof.
  intros Hm H. unfold resolve, catch at 1. rewrite bind_run, check_redis_run, Hm.
  rewrite bind_run.
  match goal with
  | |- context [from_database user_id req key ?c (w, ?l')] =>
      destruct (from_database_db_fail user_id req key c w l' H) as [l'' ->]
  end.
  eexists; reflexivity.
Qed.

Lemma database_outcome_ok w user_id req :
  w_rec_cache_ok w = true -> w_articles_ok w = true ->
  exists r, database_outcome w user_id req = inr r.
Proof.
  intros Hrc Ha. unfold database_outcome, fallback_outcome. rewrite Hrc, Ha.
  destruct (latest_active user_id (w_now w) (w_rec_cache w)) as [c|];
    [destruct (py_slice_to (cr_recommended_articles c) (rq_limit req))|];
    eexists; reflexivity.
Qed.

(** With no memo hit and a valid durable entry, what the durable-cache
    stage yields. *)
Lemma resolve_cached_entry user_id req key w l c :
  memo_hit w key = None -> w_rec_cache_ok w = true ->
  latest_active user_id (w_now w) (w_rec_cache w) = Some c ->
  fst (resolve user_id req key (w, l)) =
  inr (match py_slice_to (cr_recommended_articles c) (rq_limit req) with
       | [] => if w_articles_ok w
               then HttpOk (mkResponse
                              (trending_rows (w_articles w) (w_interactions w) user_id req)
                              "trending_fallback" (w_now w) (w_now w + 3600 * us_per_s))
               else HttpError 500 failure_message
       | ids => if w_articles_ok w
                then HttpOk (mkResponse (articles_by_ids (w_articles w) ids)
                               (cr_model_ensemble c) (cr_cache_timestamp c)
                               (cr_expiry_timestamp c))
                else HttpError 500 failure_message
       end).
Proof.
  intros Hm Hrc Hc. rewrite resolve_result. unfold resolve_outcome.
  rewrite Hm. unfold database_outcome, fallback_outcome. rewrite Hrc, Hc.
  destruct (py_slice_to (cr_recommended_articles c) (rq_limit req));
    destruct (w_articles_ok w); reflexivity.
Qed.

(** C3: when the memo holds an unexpired entry under the request's key,
    both handlers return that response at once: the world is left as it
    was and the only calls made are the Redis connection and the [get];
    no PostgreSQL query is issued.  For Flask this holds for every
    validator [validate], so whatever pydantic accepts, once it accepts
    the body the memo entry is returned. *)
Theorem memo_hit_returns_immediately user_id req body w l r :
  (memo_hit w (fastapi_cache_key user_id req) = Some r ->
   get_recommendations_fastapi user_id req (w, l) =
   (inr (HttpOk r),
    (w, (l ++ [OpRedisConnect]) ++ [OpRedisGet (fastapi_cache_key user_id req)])))
  /\ (forall validate req',
      validate (dict_set "user_id" (VStr user_id) body) = Some req' ->
      memo_hit w (memo_key user_id (dict_set "user_id" (VStr user_id) body)) = Some r ->
      flask_handler validate user_id body (w, l) =
      (inr (HttpOk r),
       (w, (l ++ [OpRedisConnect])
             ++ [OpRedisGet (memo_key user_id (dict_set "user_id" (VStr user_id) body))]))).
Proof.
  split.
  - intros H. unfold get_recommendations_fastapi. apply resolve_memo_hit. exact H.
  - intros validate req' Hp H. unfold flask_handler. rewrite Hp.
    apply resolve_memo_hit. exact H.
Qed.

Lemma memo_hit_returns_immediately_witness :
  let w := sample_world
             {[ fastapi_cache_key sample_user default_req := (sample_response, 3600000000);
                memo_key sample_user [("user_id", VStr sample_user)]
                  := (sample_response, 3600000000) ]} true [] true in
  memo_hit w (fastapi_cache_key sample_user default_req) = Some sample_response
  /\ get_recommendations_fastapi sample_user default_req (w, []) =
     (inr (HttpOk sample_response),
      (w, [OpRedisConnect; OpRedisGet (fastapi_cache_key sample_user default_req)]))
  /\ parse_request (dict_set "user_id" (VStr sample_user) [])
     = Some (mkRecReq (Some sample_user) 20 None true "0.3")
  /\ memo_hit w (memo_key sample_user (dict_set "user_id" (VStr sample_user) []))
     = Some sample_response
  /\ get_recommendations_flask sample_user [] (w, []) =
     (inr (HttpOk sample_response),
      (w, [OpRedisConnect;
           OpRedisGet (memo_key sample_user (dict_set "user_id" (VStr sample_user) []))])).
Proof.
  intros w.
  assert (H1 : memo_hit w (fastapi_cache_key sample_user default_req) = Some sample_response)
    by (vm_compute; reflexivity).
  assert (H2 : parse_request (dict_set "user_id" (VStr sample_user) [])
               = Some (mkRecReq (Some sample_user) 20 None true "0.3"))
    by (vm_compute; reflexivity).
  assert (H3 : memo_hit w (memo_key sample_user (dict_set "user_id" (VStr sample_user) []))
               = Some sample_response)
    by (vm_compute; reflexivity).
  destruct (memo_hit_returns_immediately sample_user default_req [] w [] sample_response)
    as [Hf Hk].
  split; [exact H1|]. split; [exact (Hf H1)|].
  split; [exact H2|]. split; [exact H3|].
  exact (Hk parse_request _ H2 H3).
Defined.

(** C4: Redis errors never reach the caller: a failed connection or [get]
    behaves as a miss on a working, empty memo, and the outcome of
    [setex] never changes the result; with both tables readable the
    request succeeds.  An error from the durable cache or the articles
    table, when no memo entry short-circuits the request, ends it with
    the generic 500 and nothing else: no response, no memo write. *)
Theorem redis_errors_absorbed_db_errors_fatal user_id req key w l :
  ((w_redis_connect_ok w = false \/ w_redis_get_ok w = false) ->
   fst (resolve user_id req key (w, l)) =
   fst (resolve user_id req key (with_redis w ∅ true true (w_redis_set_ok w), l)))
  /\ (forall set_ok,
      fst (resolve user_id req key
             (with_redis w (w_redis w) (w_redis_connect_ok w) (w_redis_get_ok w) set_ok, l))
      = fst (resolve user_id req key (w, l)))
  /\ (w_rec_cache_ok w = true -> w_articles_ok w = true ->
      exists r, fst (resolve user_id req key (w, l)) = inr (HttpOk r))
  /\ (memo_hit w key = None ->
      (w_rec_cache_ok w = false \/ w_articles_ok w = false) ->
      exists l', resolve user_id req key (w, l) =
                 (inr (HttpError 500 failure_message), (w, l'))).
Proof.
  split; [|split; [|split]].
  - intros H. rewrite !resolve_result. unfold resolve_outcome.
    assert (Hm : memo_hit w key = None).
    { unfold memo_hit. destruct H as [H|H]; rewrite H;
        [reflexivity|rewrite andb_false_r; reflexivity]. }
    rewrite Hm. reflexivity.
  - intros set_ok. rewrite !resolve_result. reflexivity.
  - intros Hrc Ha. rewrite resolve_result. unfold resolve_outcome.
    destruct (memo_hit w key) as [r|]; [eexists; reflexivity|].
    destruct (database_outcome_ok w user_id req Hrc Ha) as [r ->].
    eexists; reflexivity.
  - intros Hm H. apply resolve_db_fail; assumption.
Qed.

Lemma redis_errors_absorbed_db_errors_fatal_witness :
  let w := sample_world ∅ false [sample_entry [2]] false in
  (w_redis_connect_ok w = false \/ w_redis_get_ok w = false)
  /\ fst (resolve sample_user default_req "k" (w, [])) =
     fst (resolve sample_user default_req "k" (with_redis w ∅ true true true, []))
  /\ memo_hit w "k" = None
  /\ (w_rec_cache_ok w = false \/ w_articles_ok w = false)
  /\ (exists l', resolve sample_user default_req "k" (w, []) =
                 (inr (HttpError 500 failure_message), (w, l'))).
Proof.
  intros w.
  destruct (redis_errors_absorbed_db_errors_fatal sample_user default_req "k" w [])
    as (H1 & _ & _ & H4).
  assert (Hc : w_redis_connect_ok w = false \/ w_redis_get_ok w = false)
    by (left; reflexivity).
  assert (Hm : memo_hit w "k" = None) by reflexivity.
  assert (Hd : w_rec_cache_ok w = false \/ w_articles_ok w = false)
    by (left; reflexivity).
  split; [exact Hc|]. split; [exact (H1 Hc)|].
  split; [exact Hm|]. split; [exact Hd|].
  exact (H4 Hm Hd).
Defined.

(** C9: in the durable-cache stage, an empty truncated id list always
    leads to the trending fallback (the answer carries the model name
    ["trending_fallback"]); a nonempty one always yields the response of
    the cached entry, with its [model_ensemble], whatever the articles
    query returns, possibly no row at all. *)
Theorem cached_entry_stage user_id req key w l c :
  memo_hit w key = None -> w_rec_cache_ok w = true ->
  latest_active user_id (w_now w) (w_rec_cache w) = Some c ->
  (py_slice_to (cr_recommended_articles c) (rq_limit req) = [] ->
   fst (resolve user_id req key (w, l)) =
   inr (if w_articles_ok w
        then HttpOk (mkResponse
                       (trending_rows (w_articles w) (w_interactions w) user_id req)
                       "trending_fallback" (w_now w) (w_now w + 3600 * us_per_s))
        else HttpError 500 failure_message))
  /\ (py_slice_to (cr_recommended_articles c) (rq_limit req) <> [] ->
      w_articles_ok w = true ->
      fst (resolve user_id req key (w, l)) =
      inr (HttpOk (mkResponse
                     (articles_by_ids (w_articles w)
                        (py_slice_to (cr_recommended_articles c) (rq_limit req)))
                     (cr_model_ensemble c) (cr_cache_timestamp c)
                     (cr_expiry_timestamp c)))).
Proof.
  intros Hm Hrc Hc. rewrite (resolve_cached_entry user_id req key w l c Hm Hrc Hc).
  split.
  - intros He. rewrite He. reflexivity.
  - intros Hne Ha. rewrite Ha.
    destruct (py_slice_to (cr_recommended_articles c) (rq_limit req));
      [contradiction|reflexivity].
Qed.

Lemma cached_entry_stage_witness :
  let w0 := sample_world ∅ true [sample_entry []] true in
  let w1 := sample_world ∅ true [sample_entry [1]] true in
  fst (resolve sample_user default_req "k" (w0, [])) =
  inr (HttpOk (mkResponse [(2, mkArticle Published "tech" 4 1)]
                 "trending_fallback" 1000 (1000 + 3600 * us_per_s)))
  /\ fst (resolve sample_user default_req "k" (w1, [])) =
     inr (HttpOk (mkResponse [] "hybrid_v2" 100 7200000000)).
Proof.
  intros w0 w1.
  assert (Hm0 : memo_hit w0 "k" = None) by reflexivity.
  assert (Hm1 : memo_hit w1 "k" = None) by reflexivity.
  assert (Hc0 : latest_active sample_user (w_now w0) (w_rec_cache w0)
                = Some (sample_entry [])) by (vm_compute; reflexivity).
  assert (Hc1 : latest_active sample_user (w_now w1) (w_rec_cache w1)
                = Some (sample_entry [1])) by (vm_compute; reflexivity).
  destruct (cached_entry_stage sample_user default_req "k" w0 [] _ Hm0 eq_refl Hc0)
    as [H0 _].
  destruct (cached_entry_stage sample_user default_req "k" w1 [] _ Hm1 eq_refl Hc1)
    as [_ H1].
  split.
  - rewrite (H0 eq_refl). vm_compute. reflexivity.
  - rewrite (H1 ltac:(discriminate) eq_refl). vm_compute. reflexivity.
Defined.

(** C1, counterexample: a valid durable entry whose only id names a
    draft article resolves to no article, yet the handler answers with
    an empty list under the entry's model name, while the trending
    fallback would have returned the published article 2. *)
Lemma cached_entry_no_fallback_counterexample :
  let w := sample_world ∅ true [sample_entry [1]] true in
  articles_by_ids (w_articles w) [1] = []
  /\ fst (get_recommendations_fastapi sample_user default_req (w, [])) =
     inr (HttpOk (mkResponse [] "hybrid_v2" 100 7200000000))
  /\ trending_rows (w_articles w) (w_interactions w) sample_user
       (with_user sample_user default_req) = [(2, mkArticle Published "tech" 4 1)].
Proof. vm_compute. split; [reflexivity|split; reflexivity]. Qed.

(** C1, as the code behaves: with no memo hit and a valid durable entry
    whose id list truncated to [limit] is nonempty but names no published
    article, the answer is an empty list under the entry's
    [model_ensemble] and timestamps; the trending fallback is reached only
    when the truncated id list is empty (see C9). *)
Theorem cached_entry_without_articles user_id req key w l c :
  memo_hit w key = None -> w_rec_cache_ok w = true -> w_articles_ok w = true ->
  latest_active user_id (w_now w) (w_rec_cache w) = Some c ->
  py_slice_to (cr_recommended_articles c) (rq_limit req) <> [] ->
  articles_by_ids (w_articles w) (py_slice_to (cr_recommended_articles c) (rq_limit req)) = [] ->
  fst (resolve user_id req key (w, l)) =
  inr (HttpOk (mkResponse [] (cr_model_ensemble c) (cr_cache_timestamp c)
                 (cr_expiry_timestamp c))).
Proof.
  intros Hm Hrc Ha Hc Hne Hnone.
  rewrite (resolve_cached_entry user_id req key w l c Hm Hrc Hc), Ha.
  rewrite <- Hnone.
  destruct (py_slice_to (cr_recommended_articles c) (rq_limit req));
    [contradiction|reflexivity].
Qed.

Lemma cached_entry_without_articles_witness :
  let w := sample_world ∅ true [sample_entry [1]] true in
  fst (resolve sample_user default_req "k" (w, [])) =
  inr (HttpOk (mkResponse [] "hybrid_v2" 100 7200000000)).
Proof.
  intros w.
  exact (cached_entry_without_articles sample_user default_req "k" w [] (sample_entry [1])
           eq_refl eq_refl eq_refl ltac:(vm_compute; reflexivity)
           ltac:(discriminate) ltac:(vm_compute; reflexivity)).
Defined.

(** C2: the Flask handler keys its memo on the raw body, [:]-joining
    unescaped [key=value] parts.  A first request with [limit = 100] on a
    table of 21 published articles stores 21 articles; a second body,
    whose limit defaults to 20, hashes to the same key and is answered
    from the memo with those 21 articles. *)
Theorem flask_memo_key_collision :
  let w' := (get_recommendations_flask sample_user body_limit_100 (busy_world, [])).2.1 in
  memo_key sample_user (dict_set "user_id" (VStr sample_user) body_limit_100)
  = memo_key sample_user (dict_set "user_id" (VStr sample_user) body_colliding)
  /\ option_map rq_limit (parse_request (dict_set "user_id" (VStr sample_user) body_colliding))
     = Some 20
  /\ match fst (get_recommendations_flask sample_user body_colliding (w', [])) with
     | inr (HttpOk r) => Z.of_nat (length (recommendations r))
     | _ => 0
     end = 21.
Proof. vm_compute. split; [reflexivity|split; reflexivity]. Qed.

(** ** Trending score *)

(** C7: the score is the float activity
    [views * 0.1 + likes * 2 + shares * 3 + comments * 2.5] times the
    decay factor of the age bucket, rounded to two decimals.  The buckets
    close on the right: an age of exactly 1, 24, 72 or 168 hours still
    gets 1.0, 0.8, 0.6 or 0.4, one microsecond more gets the next factor.
    For 100 views, 10 likes, 5 shares and 2 comments, published 30
    minutes before [now], the score is exactly [50.0], whatever [now]. *)
Theorem trending_score_buckets_and_scenario views likes shares comments pub now :
  calculate_trending_score views likes shares comments pub now =
  py_round2 (f_mul (activity_score views likes shares comments)
                   (time_factor (hours_since pub now)))
  /\ map (fun age => time_factor (hours_since 0 age))
       [0; 3600000000; 3600000001; 86400000000; 86400000001;
        259200000000; 259200000001; 604800000000; 604800000001]
     = [lit_1_0; lit_1_0; lit_0_8; lit_0_8; lit_0_6; lit_0_6; lit_0_4; lit_0_4; lit_0_1]
  /\ activity_score 100 10 5 2 = f_of_Z 50
  /\ time_factor (hours_since (now - 1800000000) now) = lit_1_0
  /\ calculate_trending_score 100 10 5 2 (now - 1800000000) now = f_of_Z 50.
Proof.
  assert (Hh : hours_since (now - 1800000000) now = hours_since 0 1800000000)
    by (unfold hours_since; f_equal; f_equal; lia).
  split; [reflexivity|]. split; [vm_compute; reflexivity|].
  split; [vm_compute; reflexivity|].
  split; [rewrite Hh; vm_compute; reflexivity|].
  unfold calculate_trending_score. rewrite Hh. vm_compute. reflexivity.
Qed.

(** ** Keywords *)


Lemma lower_char_not_upper c : is_ascii_upper (lower_char c) = false.
Proof.
  destruct c as [b0 b1 b2 b3 b4 b5 b6 b7].
  destruct b0, b1, b2, b3, b4, b5, b6, b7; vm_compute; reflexivity.
Qed.

Lemma split_runs_chars sep cs cur r c :
  In r (split_runs sep cs cur) -> In c r -> In c cs \/ In c cur.
Proof.
  revert cur; induction cs as [|c0 cs IH]; intros cur Hr Hc; simpl in Hr.
  - destruct cur as [|x cur']; [destruct Hr|].
    destruct Hr as [<-|[]]. right. apply in_rev. exact Hc.
  - destruct (sep c0).
    + destruct cur as [|x cur'].
      * destruct (IH [] Hr Hc) as [H|[]]. left; right; exact H.
      * destruct Hr as [<-|Hr].
        { right. apply in_rev. exact Hc. }
        destruct (IH [] Hr Hc) as [H|[]]. left; right; exact H.
    + destruct (IH (c0 :: cur) Hr Hc) as [H|[<-|H]].
      * left; right; exact H.
      * left; left; reflexivity.
      * right; exact H.
Qed.

Lemma findall_words_shape content w :
  In w (findall_words content) ->
  forallb is_ascii_lower w = true /\ (3 <= length w)%nat.
Proof.
  unfold findall_words. intros Hw. apply List.filter_In in Hw as [Hr Hp].
  apply andb_true_iff in Hp as [Hl Hlen]. apply Nat.leb_le in Hlen.
  split; [|exact Hlen].
  apply forallb_forall. intros c Hc.
  pose proof (proj1 (forallb_forall _ _) Hl c Hc) as Hlet.
  destruct (split_runs_chars _ _ _ _ _ Hr Hc) as [Hm|[]].
  apply in_map_iff in Hm as [c' [<- _]].
  unfold is_ascii_letter in Hlet. rewrite lower_char_not_upper in Hlet.
  exact Hlet.
Qed.

Lemma uniq_first_In ws x : In x (uniq_first ws) <-> In x ws.
Proof.
  induction ws as [|w ws IH]; simpl; [tauto|].
  rewrite List.filter_In, IH. split.
  - intros [->|[H _]]; auto.
  - intros [->|H]; [left; reflexivity|].
    destruct (decide (x = w)) as [->|Hne]; [left; reflexivity|].
    right. split; [exact H|]. rewrite bool_decide_false by exact Hne. reflexivity.
Qed.

Lemma uniq_first_NoDup ws : List.NoDup (uniq_first ws).
Proof.
  induction ws as [|w ws IH]; simpl; constructor.
  - rewrite List.filter_In. intros [_ H]. rewrite bool_decide_true in H by reflexivity.
    discriminate.
  - apply List.NoDup_filter. exact IH.
Qed.

Lemma filter_neq_notin (w : list ascii) l :
  ~ In w l -> List.filter (fun v => negb (bool_decide (v = w))) l = l.
Proof.
  induction l as [|x l IH]; intros Hn; simpl; [reflexivity|].
  rewrite bool_decide_false by (intros ->; apply Hn; left; reflexivity).
  simpl. f_equal. apply IH. intros H; apply Hn; right; exact H.
Qed.

Lemma uniq_first_snoc_notin ws w :
  ~ In w ws -> uniq_first (ws ++ [w]) = uniq_first ws ++ [w].
Proof.
  induction ws as [|a ws IH]; intros Hn; simpl; [reflexivity|].
  rewrite IH by (intros H; apply Hn; right; exact H).
  rewrite List.filter_app. simpl.
  rewrite bool_decide_false by (intros ->; apply Hn; left; reflexivity).
  reflexivity.
Qed.

Lemma uniq_first_snoc_in ws w :
  In w ws -> uniq_first (ws ++ [w]) = uniq_first ws.
Proof.
  induction ws as [|a ws IH]; intros Hin; [destruct Hin|]. simpl. f_equal.
  destruct (in_dec (fun x y => decide (x = y)) w ws) as [Hin'|Hout].
  - rewrite (IH Hin'). reflexivity.
  - destruct Hin as [->|Hin]; [|contradiction].
    rewrite (uniq_first_snoc_notin ws w Hout), List.filter_app. simpl.
    rewrite bool_decide_true by reflexivity. apply app_nil_r.
Qed.

Lemma occurrences_app v ws1 ws2 :
  occurrences v (ws1 ++ ws2) = (occurrences v ws1 + occurrences v ws2)%nat.
Proof. unfold occurrences. rewrite List.filter_app. apply length_app. Qed.

Lemma occurrences_notin v ws : ~ In v ws -> occurrences v ws = O.
Proof.
  unfold occurrences. induction ws as [|x ws IH]; intros Hn; simpl; [reflexivity|].
  rewrite bool_decide_false by (intros ->; apply Hn; left; reflexivity).
  apply IH. intros H; apply Hn; right; exact H.
Qed.

Lemma bump_map_in w (f : list ascii -> nat) u :
  List.NoDup u -> In w u ->
  bump w (map (fun v => (v, f v)) u) =
  map (fun v => (v, if bool_decide (v = w) then S (f v) else f v)) u.
Proof.
  induction u as [|x u IH]; intros Hnd Hin; [destruct Hin|].
  inversion Hnd as [|? ? Hx Hnd']; subst. simpl.
  destruct (decide (x = w)) as [->|Hne].
  - rewrite bool_decide_true by reflexivity. f_equal.
    apply map_ext_in. intros v Hv.
    rewrite bool_decide_false by (intros ->; contradiction). reflexivity.
  - rewrite bool_decide_false by exact Hne. f_equal.
    apply IH; [exact Hnd'|]. destruct Hin as [->|Hin]; [contradiction|exact Hin].
Qed.

Lemma bump_map_notin w (f : list ascii -> nat) u :
  ~ In w u ->
  bump w (map (fun v => (v, f v)) u) = map (fun v => (v, f v)) u ++ [(w, 1%nat)].
Proof.
  induction u as [|x u IH]; intros Hn; simpl; [reflexivity|].
  rewrite decide_False by (intros ->; apply Hn; left; reflexivity).
  f_equal. apply IH. intros H; apply Hn; right; exact H.
Qed.

Lemma occurrences_single v w :
  occurrences v [w] = if bool_decide (w = v) then 1%nat else O.
Proof. unfold occurrences. simpl. destruct (bool_decide (w = v)); reflexivity. Qed.

Lemma bump_table acc w :
  bump w (keyword_table acc) = keyword_table (acc ++ [w]).
Proof.
  unfold keyword_table.
  destruct (in_dec (fun x y => decide (x = y)) w acc) as [Hin|Hout].
  - rewrite (uniq_first_snoc_in acc w Hin).
    rewrite (bump_map_in w (fun v => occurrences v acc)) by
      (apply uniq_first_NoDup || apply uniq_first_In; exact Hin).
    apply map_ext. intros v. rewrite occurrences_app, occurrences_single.
    destruct (decide (v = w)) as [->|Hne].
    + rewrite !bool_decide_true by reflexivity. f_equal. lia.
    + rewrite bool_decide_false by exact Hne.
      rewrite bool_decide_false by (intros ->; contradiction). f_equal. lia.
  - rewrite (uniq_first_snoc_notin acc w Hout).
    rewrite bump_map_notin by (rewrite uniq_first_In; exact Hout).
    rewrite map_app. simpl. f_equal.
    + apply map_ext_in. intros v Hv. rewrite occurrences_app, occurrences_single.
      rewrite bool_decide_false; [f_equal; lia|].
      intros ->. apply Hout. apply uniq_first_In. exact Hv.
    + rewrite occurrences_app, occurrences_notin by exact Hout.
      rewrite occurrences_single, bool_decide_true by reflexivity. reflexivity.
Qed.

Lemma count_words_fold ws acc :
  fold_left (fun d w => if is_stop_word w then d else bump w d) ws (keyword_table acc)
  = keyword_table (acc ++ List.filter (fun w => negb (is_stop_word w)) ws).
Proof.
  revert acc; induction ws as [|w ws IH]; intros acc; simpl.
  - rewrite app_nil_r. reflexivity.
  - destruct (is_stop_word w); simpl.
    + apply IH.
    + rewrite bump_table, IH, <- app_assoc. reflexivity.
Qed.

Lemma count_words_table content :
  count_words (findall_words content) = keyword_table (keyword_tokens content).
Proof.
  unfold count_words, keyword_tokens.
  exact (count_words_fold (findall_words content) []).
Qed.


Lemma insert_desc_perm (x : Entry) l : Permutation (insert_desc x l) (x :: l).
Proof.
  induction l as [|y l IH]; simpl; [reflexivity|].
  destruct (y.2 <=? x.2)%nat; [reflexivity|].
  rewrite IH. apply perm_swap.
Qed.

Lemma sort_desc_perm (l : list Entry) : Permutation (sort_desc l) l.
Proof.
  induction l as [|x l IH]; simpl; [reflexivity|].
  rewrite insert_desc_perm, IH. reflexivity.
Qed.

Lemma insert_desc_sorted (x : Entry) l :
  Sorted (fun p q => (q.2 <= p.2)%nat) l ->
  Sorted (fun p q => (q.2 <= p.2)%nat) (insert_desc x l).
Proof.
  induction l as [|y l IH]; intros Hs; simpl; [constructor; constructor|].
  destruct (y.2 <=? x.2)%nat eqn:E.
  - apply Nat.leb_le in E. constructor; [exact Hs|constructor; exact E].
  - apply Nat.leb_gt in E. apply Sorted_inv in Hs as [Hs Hh].
    constructor; [apply IH; exact Hs|].
    destruct l as [|z l]; simpl.
    + constructor. lia.
    + destruct (z.2 <=? x.2)%nat; constructor; [lia|].
      inversion Hh; assumption.
Qed.

Lemma sort_desc_sorted (l : list Entry) :
  StronglySorted (fun p q => (q.2 <= p.2)%nat) (sort_desc l).
Proof.
  apply Sorted_StronglySorted; [intros p q r; lia|].
  induction l as [|x l IH]; simpl; [constructor|]. apply insert_desc_sorted. exact IH.
Qed.

(** Stability: among entries of equal count the order is kept. *)
Lemma filter_insert_desc (x : Entry) l n :
  List.filter (fun p => (p.2 =? n)%nat) (insert_desc x l)
  = List.filter (fun p => (p.2 =? n)%nat) (x :: l).
Proof.
  induction l as [|y l IH]; simpl; [reflexivity|].
  destruct (y.2 <=? x.2)%nat eqn:E; [reflexivity|]. apply Nat.leb_gt in E.
  simpl. rewrite IH. simpl.
  destruct (Nat.eqb_spec x.2 n), (Nat.eqb_spec y.2 n); try reflexivity. lia.
Qed.

Lemma filter_sort_desc (l : list Entry) n :
  List.filter (fun p => (p.2 =? n)%nat) (sort_desc l)
  = List.filter (fun p => (p.2 =? n)%nat) l.
Proof.
  induction l as [|x l IH]; simpl; [reflexivity|].
  rewrite filter_insert_desc. simpl. rewrite IH. reflexivity.
Qed.

Lemma StronglySorted_filter {A} (R : A -> A -> Prop) f l :
  StronglySorted R l -> StronglySorted R (List.filter f l).
Proof.
  induction l as [|x l IH]; intros Hs; simpl; [constructor|].
  apply StronglySorted_inv in Hs as [Hs Hf].
  destruct (f x); [|apply IH; exact Hs].
  constructor; [apply IH; exact Hs|].
  apply List.Forall_forall. intros y Hy. apply List.filter_In in Hy as [Hy _].
  exact (proj1 (List.Forall_forall _ _) Hf y Hy).
Qed.

(** A list sorted by count whose every equal-count slice is sorted by [P]
    is sorted lexicographically. *)
Lemma StronglySorted_ties (Q P : Entry -> Entry -> Prop) l :
  StronglySorted Q l ->
  (forall n, StronglySorted P (List.filter (fun p => (p.2 =? n)%nat) l)) ->
  StronglySorted (fun p q => Q p q /\ (p.2 = q.2 -> P p q)) l.
Proof.
  induction l as [|x l IH]; intros Hq Hp; [constructor|].
  apply StronglySorted_inv in Hq as [Hq Hfq]. constructor.
  - apply IH; [exact Hq|]. intros n. specialize (Hp n). simpl in Hp.
    destruct (x.2 =? n)%nat; [apply StronglySorted_inv in Hp as [Hp _]|]; exact Hp.
  - apply List.Forall_forall. intros y Hy. split.
    + exact (proj1 (List.Forall_forall _ _) Hfq y Hy).
    + intros Heq. specialize (Hp x.2). simpl in Hp. rewrite Nat.eqb_refl in Hp.
      apply StronglySorted_inv in Hp as [_ Hf].
      apply (proj1 (List.Forall_forall _ _) Hf). apply List.filter_In.
      split; [exact Hy|]. apply Nat.eqb_eq. symmetry. exact Heq.
Qed.


Lemma StronglySorted_weaken_in {A} (R1 R2 : A -> A -> Prop) l :
  (forall x y, In x l -> In y l -> R1 x y -> R2 x y) ->
  StronglySorted R1 l -> StronglySorted R2 l.
Proof.
  induction l as [|x l IH]; intros Himp Hs; [constructor|].
  apply StronglySorted_inv in Hs as [Hs Hf]. constructor.
  - apply IH; [|exact Hs]. intros a b Ha Hb. apply Himp; right; assumption.
  - apply List.Forall_forall. intros y Hy. apply Himp; [left; reflexivity|right; exact Hy|].
    exact (proj1 (List.Forall_forall _ _) Hf y Hy).
Qed.

Lemma StronglySorted_map {A B} (R : B -> B -> Prop) (g : A -> B) l :
  StronglySorted (fun x y => R (g x) (g y)) l -> StronglySorted R (map g l).
Proof.
  induction l as [|x l IH]; intros Hs; simpl; [constructor|].
  apply StronglySorted_inv in Hs as [Hs Hf]. constructor; [apply IH; exact Hs|].
  apply List.Forall_forall. intros y Hy. apply in_map_iff in Hy as [z [<- Hz]].
  exact (proj1 (List.Forall_forall _ _) Hf z Hz).
Qed.

Lemma StronglySorted_app_l {A} (R : A -> A -> Prop) l1 l2 :
  StronglySorted R (l1 ++ l2) -> StronglySorted R l1.
Proof.
  induction l1 as [|x l1 IH]; intros Hs; simpl in *; [constructor|].
  apply StronglySorted_inv in Hs as [Hs Hf]. constructor; [apply IH; exact Hs|].
  apply List.Forall_forall. intros y Hy.
  apply (proj1 (List.Forall_forall _ _) Hf). apply in_or_app. left; exact Hy.
Qed.

Lemma StronglySorted_app_between {A} (R : A -> A -> Prop) l1 l2 a b :
  StronglySorted R (l1 ++ l2) -> In a l1 -> In b l2 -> R a b.
Proof.
  induction l1 as [|x l1 IH]; intros Hs Ha Hb; [destruct Ha|]. simpl in Hs.
  apply StronglySorted_inv in Hs as [Hs Hf]. destruct Ha as [<-|Ha].
  - apply (proj1 (List.Forall_forall _ _) Hf). apply in_or_app. right; exact Hb.
  - exact (IH Hs Ha Hb).
Qed.

Lemma uniq_first_sorted ws :
  StronglySorted (fun u v => (first_pos u ws < first_pos v ws)%nat) (uniq_first ws).
Proof.
  induction ws as [|w ws IH]; simpl; [constructor|]. constructor.
  - apply (StronglySorted_weaken_in (fun u v => (first_pos u ws < first_pos v ws)%nat)).
    + intros x y Hx Hy Hlt. apply List.filter_In in Hx as [_ Hx], Hy as [_ Hy].
      apply negb_true_iff, bool_decide_eq_false in Hx, Hy.
      rewrite bool_decide_false by (intros ->; apply Hx; reflexivity).
      rewrite bool_decide_false by (intros ->; apply Hy; reflexivity). lia.
    + apply StronglySorted_filter. exact IH.
  - apply List.Forall_forall. intros v Hv. apply List.filter_In in Hv as [_ Hv].
    apply negb_true_iff, bool_decide_eq_false in Hv.
    rewrite bool_decide_true by reflexivity.
    rewrite bool_decide_false by (intros ->; apply Hv; reflexivity). lia.
Qed.

Lemma keyword_table_keys ws : map fst (keyword_table ws) = uniq_first ws.
Proof. unfold keyword_table. rewrite map_map. apply map_id. Qed.

Lemma keyword_table_counts ws p :
  In p (keyword_table ws) -> p.2 = occurrences p.1 ws.
Proof. unfold keyword_table. intros Hp. apply in_map_iff in Hp as [v [<- _]]. reflexivity. Qed.

(** C6, as the code behaves: the keywords are lowercase ASCII words of at
    least three letters, found by the regular expression and not stop
    words; they are distinct; they are ranked by count, largest first,
    ties in order of first occurrence, and they are the top of that
    ranking.  Their number is [min(k, D)] for [k >= 0], where [D] is the
    number of distinct tokens, but [max(0, D + k)] for a negative [k]:
    Python's slice [[:k]] then drops the last [-k] entries. *)
Theorem extract_keywords_spec content k :
  let N := keyword_tokens content in
  let out := extract_keywords content k in
  (forall w, In w out ->
     forallb is_ascii_lower w = true /\ (3 <= length w)%nat
     /\ is_stop_word w = false /\ In w (findall_words content))
  /\ List.NoDup out
  /\ Z.of_nat (length out) =
     (if 0 <=? k then Z.min k (Z.of_nat (length (uniq_first N)))
      else Z.max 0 (Z.of_nat (length (uniq_first N)) + k))
  /\ StronglySorted (keyword_before N) out
  /\ (forall u v, In u out -> In v N -> ~ In v out -> keyword_before N u v).
Proof.
  intros N out.
  set (ranked := sort_desc (keyword_table N)).
  set (K := map fst ranked).
  set (m := if 0 <=? k then Z.to_nat k
            else Z.to_nat (Z.of_nat (length ranked) + k)).
  assert (Hout : out = take m K).
  { unfold out, extract_keywords, K, m, py_slice_to.
    rewrite count_words_table. fold N. fold ranked.
    destruct (0 <=? k); symmetry; apply firstn_map. }
  assert (HK : Permutation K (uniq_first N)).
  { unfold K, ranked. rewrite <- keyword_table_keys.
    apply Permutation_map. apply sort_desc_perm. }
  assert (HKin : forall x, In x K <-> In x N).
  { intros x. split; intros H.
    - apply uniq_first_In. exact (Permutation_in _ HK H).
    - apply (Permutation_in _ (Permutation_sym HK)). apply uniq_first_In. exact H. }
  assert (Hlen : length ranked = length (uniq_first N)).
  { rewrite <- (Permutation_length HK). unfold K. symmetry. apply length_map. }
  assert (Hcnt : forall p, In p ranked -> p.2 = occurrences p.1 N).
  { intros p Hp. apply keyword_table_counts.
    apply (Permutation_in _ (sort_desc_perm _)). exact Hp. }
  assert (HKs : StronglySorted (keyword_before N) K).
  { unfold K. apply StronglySorted_map.
    apply (StronglySorted_weaken_in
             (fun p q => (q.2 <= p.2)%nat /\ (p.2 = q.2 -> (first_pos p.1 N < first_pos q.1 N)%nat))).
    - intros x y Hx Hy [Hle Hti]. unfold keyword_before.
      rewrite <- (Hcnt x Hx), <- (Hcnt y Hy).
      destruct (Nat.eq_dec x.2 y.2) as [He|Hne]; [right; auto|left; lia].
    - apply StronglySorted_ties; [apply sort_desc_sorted|].
      intros n. unfold ranked. rewrite filter_sort_desc. apply StronglySorted_filter.
      unfold keyword_table. apply StronglySorted_map. exact (uniq_first_sorted N). }
  assert (Hsplit : K = take m K ++ drop m K) by (symmetry; apply take_drop).
  assert (Hsub : forall x, In x out -> In x K).
  { intros x Hx. rewrite Hsplit, <- Hout. apply in_or_app. left; exact Hx. }
  split; [|split; [|split; [|split]]].
  - intros w Hw. apply Hsub, HKin in Hw. unfold N, keyword_tokens in Hw.
    apply List.filter_In in Hw as [Hw Hs]. apply negb_true_iff in Hs.
    destruct (findall_words_shape _ _ Hw) as [H1 H2]. auto.
  - rewrite Hout. apply (NoDup_app_remove_r _ (drop m K)). rewrite <- Hsplit.
    apply (Permutation_NoDup (Permutation_sym HK)). apply uniq_first_NoDup.
  - rewrite Hout, length_firstn. unfold K. rewrite length_map.
    unfold m. rewrite Hlen. destruct (Z.leb_spec 0 k); lia.
  - rewrite Hout. apply (StronglySorted_app_l _ _ (drop m K)). rewrite <- Hsplit. exact HKs.
  - intros u v Hu Hv Hvn. apply HKin in Hv.
    rewrite Hsplit in HKs, Hv. rewrite Hout in Hu, Hvn.
    apply in_app_or in Hv as [Hv|Hv]; [contradiction|].
    exact (StronglySorted_app_between _ _ _ _ _ HKs Hu Hv).
Qed.

(** C6, counterexample: with [max_keywords = -1] the slice keeps all but
    the last entry, so one keyword comes back, more than [max_keywords]. *)
Lemma extract_keywords_negative_counterexample :
  extract_keywords "alpha beta" (-1) = [list_ascii_of_string "alpha"]
  /\ ~ (Z.of_nat (length (extract_keywords "alpha beta" (-1))) <= -1).
Proof.
  assert (H : extract_keywords "alpha beta" (-1) = [list_ascii_of_string "alpha"])
    by (vm_compute; reflexivity).
  split; [exact H|]. rewrite H. simpl. lia.
Qed.

(* ------------------------------------------------------------------ *)
(** * Further properties of the code *)

(* ------------------------------------------------------------------ *)
(** ** Quality score, word count, pagination, cache keys *)

(* quality *)
Lemma length_points_mult5 n : length_points n mod 5 = 0.
Proof. unfold length_points. repeat case_match; reflexivity. Qed.
Lemma title_points_mult5 n : title_points n mod 5 = 0.
Proof. unfold title_points. repeat case_match; reflexivity. Qed.
Lemma summary_points_mult5 s : summary_points s mod 5 = 0.
Proof. unfold summary_points. repeat case_match; reflexivity. Qed.
Lemma readability_points_mult5 ss : readability_points ss mod 5 = 0.
Proof. unfold readability_points. repeat case_match; reflexivity. Qed.
Lemma structure_points_mult5 ps : structure_points ps mod 5 = 0.
Proof. unfold structure_points. repeat case_match; reflexivity. Qed.

Lemma round2_integers_exact :
  map (fun n => py_round2 (f_of_Z n)) (seqZ 20 81) = map f_of_Z (seqZ 20 81).
Proof. vm_compute. reflexivity. Qed.

Lemma map_eq_In {A B} (f g : A -> B) l x : map f l = map g l -> In x l -> f x = g x.
Proof.
  induction l as [|y l IH]; simpl; intros Heq Hx; [destruct Hx|].
  injection Heq as H1 H2. destruct Hx as [<-|Hx]; [exact H1|exact (IH H2 Hx)].
Qed.

Lemma round2_integer_exact n : 20 <= n <= 100 -> py_round2 (f_of_Z n) = f_of_Z n.
Proof.
  intros Hn. apply (map_eq_In _ _ _ _ round2_integers_exact).
  apply list_elem_of_In, elem_of_seqZ. lia.
Qed.

(** The quality score is the exact sum of the five point tables: a multiple of 5
    between 20 and 100, which the final [round(score, 2)] leaves unchanged. *)
Theorem quality_score_is_exact_sum content title summary :
  let n := quality_raw content title summary in
  20 <= n <= 100 /\ n mod 5 = 0 /\ calculate_quality_score content title summary = f_of_Z n.
Proof.
  cbv zeta.
  assert (Hb : 20 <= quality_raw content title summary <= 100).
  { unfold quality_raw.
    pose proof (length_points_bounds (calculate_word_count content)).
    pose proof (title_points_ge_5 (Z.of_nat (length (py_split title)))).
    pose proof (title_points_le_20 (Z.of_nat (length (py_split title)))).
    pose proof (summary_points_bounds summary).
    pose proof (readability_points_ge_10 _ (py_split_sep_nonempty content ".")).
    pose proof (readability_points_le_20 (py_split_sep content ".")).
    pose proof (structure_points_ge_5 (py_split_sep content (String "010"%char (String "010"%char EmptyString)))).
    pose proof (structure_points_le_15 (py_split_sep content (String "010"%char (String "010"%char EmptyString)))).
    lia. }
  split; [exact Hb|split].
  - unfold quality_raw.
    pose proof (length_points_mult5 (calculate_word_count content)).
    pose proof (title_points_mult5 (Z.of_nat (length (py_split title)))).
    pose proof (summary_points_mult5 summary).
    pose proof (readability_points_mult5 (py_split_sep content ".")).
    pose proof (structure_points_mult5 (py_split_sep content (String "010"%char (String "010"%char EmptyString)))).
    apply Z.mod_divide; [lia|].
    repeat apply Z.divide_add_r; apply Z.mod_divide; (lia || assumption).
  - unfold calculate_quality_score. rewrite Z.min_l by lia.
    apply round2_integer_exact. exact Hb.
Qed.

(* word count *)
Lemma list_ascii_of_string_app s1 s2 :
  list_ascii_of_string (s1 +:+ s2) = list_ascii_of_string s1 ++ list_ascii_of_string s2.
Proof. induction s1 as [|c s1 IH]; simpl; [reflexivity|]. rewrite IH. reflexivity. Qed.

Lemma split_runs_sep_app sep cs1 c cs2 cur :
  sep c = true ->
  split_runs sep (cs1 ++ c :: cs2) cur = split_runs sep cs1 cur ++ split_runs sep cs2 [].
Proof.
  intros Hc. revert cur; induction cs1 as [|c1 cs1 IH]; intros cur; simpl.
  - rewrite Hc. destruct cur; reflexivity.
  - destruct (sep c1); [destruct cur; rewrite IH; reflexivity|apply IH].
Qed.

(** Word counts add up: joining two texts with a whitespace character gives
    the sum of their word counts. *)
Theorem word_count_additive s1 c s2 :
  is_space c = true ->
  calculate_word_count (s1 +:+ String c s2) = calculate_word_count s1 + calculate_word_count s2.
Proof.
  intros Hc. unfold calculate_word_count, py_split.
  rewrite list_ascii_of_string_app. simpl.
  rewrite (split_runs_sep_app _ _ _ _ _ Hc), length_app. lia.
Qed.

Lemma word_count_additive_witness :
  is_space " "%char = true /\
  calculate_word_count ("Decentralized news" +:+ String " "%char "for everyone") =
  calculate_word_count "Decentralized news" + calculate_word_count "for everyone".
Proof. split; [reflexivity|]. apply word_count_additive. reflexivity. Defined.

(* pagination *)
Lemma py_slice_nonneg {A} (xs : list A) i j :
  0 <= i <= j ->
  py_slice xs i j = take (Z.to_nat (j - i)) (drop (Z.to_nat i) xs).
Proof.
  intros Hij. unfold py_slice.
  rewrite (proj2 (Z.ltb_ge i 0)), (proj2 (Z.ltb_ge j 0)) by lia.
  set (n := Z.of_nat (length xs)).
  destruct (Z.le_gt_cases j n).
  - rewrite !Z.min_l by lia. reflexivity.
  - rewrite (Z.min_r j n) by lia.
    destruct (Z.le_gt_cases i n).
    + rewrite Z.min_l by lia.
      rewrite !take_ge; [reflexivity| |]; rewrite length_drop; lia.
    + rewrite Z.min_r by lia. rewrite !drop_ge by lia. rewrite !take_nil. reflexivity.
Qed.

Lemma has_next_iff page pp total :
  1 <= pp -> (page <? (total + pp - 1) / pp) = true <-> page * pp < total.
Proof.
  intros Hpp. rewrite Z.ltb_lt. split; intros H.
  - assert (H1 : (page + 1) * pp <= total + pp - 1).
    { apply Z.le_trans with ((total + pp - 1) / pp * pp).
      - apply Z.mul_le_mono_nonneg_r; lia.
      - rewrite Z.mul_comm. apply Z.mul_div_le. lia. }
    lia.
  - apply Z.lt_le_trans with (page + 1); [lia|].
    apply Z.div_le_lower_bound; lia.
Qed.

(** For [page >= 1] and [per_page >= 1], [paginate_query_results] returns the
    slice [results[(page-1)*per_page : page*per_page]], at most [per_page]
    items, the full total, [has_next] iff items remain after the page and
    [has_prev] iff [page >= 2]. *)
Theorem paginate_valid_page {A} (results : list A) page per_page :
  1 <= page -> 1 <= per_page ->
  exists p, paginate_query_results results page per_page = Some p /\
    pg_data p = take (Z.to_nat per_page) (drop (Z.to_nat ((page - 1) * per_page)) results) /\
    (length (pg_data p) <= Z.to_nat per_page)%nat /\
    pg_total p = Z.of_nat (length results) /\
    (pg_has_next p = true <-> page * per_page < Z.of_nat (length results)) /\
    (pg_has_prev p = true <-> 2 <= page).
Proof.
  intros Hp Hpp. unfold paginate_query_results.
  rewrite (proj2 (Z.eqb_neq per_page 0)) by lia.
  eexists; split; [reflexivity|]. cbn -[py_slice].
  rewrite py_slice_nonneg by nia.
  replace ((page - 1) * per_page + per_page - (page - 1) * per_page) with per_page by ring.
  split; [reflexivity|]. split; [rewrite length_take; lia|].
  split; [reflexivity|]. split; [apply has_next_iff; exact Hpp|].
  rewrite Z.ltb_lt. lia.
Qed.

Lemma paginate_valid_page_witness :
  (1 <= 2 /\ 1 <= 20) /\
  exists p, paginate_query_results (seqZ 0 50) 2 20 = Some p /\
    pg_data p = take (Z.to_nat 20) (drop (Z.to_nat ((2 - 1) * 20)) (seqZ 0 50)) /\
    (length (pg_data p) <= Z.to_nat 20)%nat /\
    pg_total p = Z.of_nat (length (seqZ 0 50)) /\
    (pg_has_next p = true <-> 2 * 20 < Z.of_nat (length (seqZ 0 50))) /\
    (pg_has_prev p = true <-> 2 <= 2).
Proof. split; [lia|]. apply paginate_valid_page; lia. Defined.

Lemma concat_pages {A} (l : list A) n m :
  concat (map (fun k => take n (drop (k * n) l)) (seq 0 m)) = take (m * n) l.
Proof.
  induction m as [|m IH]; [reflexivity|].
  rewrite seq_S, map_app, concat_app, IH. simpl. rewrite app_nil_r.
  rewrite take_take_drop. f_equal. lia.
Qed.

Lemma map_seqZ {B} (F : Z -> B) m n :
  map F (seqZ m n) = map (fun k => F (Z.of_nat k + m)) (seq 0 (Z.to_nat n)).
Proof.
  unfold seqZ. induction (seq 0 (Z.to_nat n)) as [|k l IH]; [reflexivity|].
  rewrite fmap_cons. simpl. rewrite IH. reflexivity.
Qed.

(** Reading the pages [1 .. pages] in order returns every result exactly once:
    their concatenation is the input list. *)
Theorem paginate_pages_cover {A} (results : list A) per_page :
  1 <= per_page ->
  let pages := (Z.of_nat (length results) + per_page - 1) / per_page in
  concat (map (fun page => match paginate_query_results results page per_page with
                           | Some p => pg_data p
                           | None => []
                           end) (seqZ 1 pages)) = results.
Proof.
  intros Hpp pages.
  assert (Hpg : 0 <= pages) by (apply Z.div_pos; lia).
  assert (Hcov : Z.of_nat (length results) <= pages * per_page).
  { unfold pages.
    pose proof (Z.mod_pos_bound (Z.of_nat (length results) + per_page - 1) per_page ltac:(lia)).
    pose proof (Z.div_mod (Z.of_nat (length results) + per_page - 1) per_page ltac:(lia)).
    nia. }
  rewrite map_seqZ.
  erewrite (map_ext_in _ (fun k => take (Z.to_nat per_page) (drop (k * Z.to_nat per_page) results))).
  - rewrite concat_pages. apply take_ge. nia.
  - intros k Hk. apply in_seq in Hk.
    destruct (paginate_valid_page results (Z.of_nat k + 1) per_page ltac:(lia) Hpp)
      as [p [-> [-> _]]].
    f_equal. f_equal. nia.
Qed.

Lemma paginate_pages_cover_witness :
  1 <= 7 /\
  concat (map (fun page => match paginate_query_results (seqZ 0 50) page 7 with
                           | Some p => pg_data p
                           | None => []
                           end) (seqZ 1 ((Z.of_nat (length (seqZ 0 50)) + 7 - 1) / 7))) = seqZ 0 50.
Proof. split; [lia|]. apply (paginate_pages_cover (seqZ 0 50) 7). lia. Defined.

(** With [per_page = 0] the function fails (division by zero). With [page <= 0]
    it still returns a page without [has_prev]: page 0 is empty, and a negative
    page holds [results[max(0, n+(page-1)*per_page) : max(0, n+page*per_page)]]
    for [n] results, Python's negative slice indices clamped at 0; a page far
    enough back is empty. *)
Theorem paginate_bad_arguments {A} (results : list A) page per_page :
  paginate_query_results results page 0 = None /\
  (1 <= per_page -> page <= 0 ->
   exists p, paginate_query_results results page per_page = Some p /\
     pg_has_prev p = false /\
     (page = 0 -> pg_data p = []) /\
     (page < 0 ->
      let lo := Z.max 0 (Z.of_nat (length results) + (page - 1) * per_page) in
      let hi := Z.max 0 (Z.of_nat (length results) + page * per_page) in
      pg_data p = take (Z.to_nat (hi - lo)) (drop (Z.to_nat lo) results)) /\
     (page * per_page <= - Z.of_nat (length results) -> pg_data p = [])).
Proof.
  split; [reflexivity|]. intros Hpp Hp. unfold paginate_query_results.
  rewrite (proj2 (Z.eqb_neq per_page 0)) by lia.
  eexists; split; [reflexivity|]. cbn -[py_slice]. unfold py_slice.
  replace ((page - 1) * per_page + per_page) with (page * per_page) by ring.
  set (n := Z.of_nat (length results)).
  rewrite (proj2 (Z.ltb_lt ((page - 1) * per_page) 0)) by nia.
  split; [apply Z.ltb_ge; lia|]. split; [|split].
  - intros ->. rewrite (proj2 (Z.ltb_ge (0 * per_page) 0)) by lia.
    match goal with |- take (Z.to_nat ?x) _ = _ => replace (Z.to_nat x) with 0%nat by lia end.
    reflexivity.
  - intros Hneg. rewrite (proj2 (Z.ltb_lt (page * per_page) 0)) by nia.
    rewrite !(Z.add_comm n). reflexivity.
  - intros Hfar. destruct (Z.ltb_spec (page * per_page) 0).
    + match goal with |- take (Z.to_nat ?x) _ = _ => replace (Z.to_nat x) with 0%nat by nia end.
      reflexivity.
    + match goal with |- take (Z.to_nat ?x) _ = _ => replace (Z.to_nat x) with 0%nat by nia end.
      reflexivity.
Qed.

Lemma paginate_bad_arguments_witness :
  option_map pg_data (paginate_query_results (seqZ 0 50) (-2) 20) = Some (seqZ 0 10) /\
  option_map pg_data (paginate_query_results (seqZ 0 50) (-1) 20) = Some (seqZ 10 20) /\
  option_map pg_data (paginate_query_results (seqZ 0 50) (-3) 20) = Some [].
Proof.
  destruct (paginate_bad_arguments (seqZ 0 50) (-2) 20) as [_ H2].
  destruct (H2 ltac:(lia) ltac:(lia)) as [p2 [Hp2 [_ [_ [Hd2 _]]]]].
  destruct (paginate_bad_arguments (seqZ 0 50) (-1) 20) as [_ H1].
  destruct (H1 ltac:(lia) ltac:(lia)) as [p1 [Hp1 [_ [_ [Hd1 _]]]]].
  destruct (paginate_bad_arguments (seqZ 0 50) (-3) 20) as [_ H3].
  destruct (H3 ltac:(lia) ltac:(lia)) as [p3 [Hp3 [_ [_ [_ Hd3]]]]].
  rewrite Hp2, Hp1, Hp3. simpl.
  rewrite Hd2, Hd1, Hd3 by (vm_compute; congruence).
  split; [|split]; vm_compute; reflexivity.
Defined.

(* ------------------------------------------------------------------ *)
(** ** Recommendation queries, cache and endpoints *)

Ltac ranks_cases :=
  unfold ranks_before in *;
  repeat match goal with
         | |- context [?a <? ?b] => destruct (Z.ltb_spec a b)
         | |- context [?a =? ?b] => destruct (Z.eqb_spec a b)
         | |- context [?a <=? ?b] => destruct (Z.leb_spec a b)
         | H : context [?a <? ?b] |- _ => destruct (Z.ltb_spec a b)
         | H : context [?a =? ?b] |- _ => destruct (Z.eqb_spec a b)
         | H : context [?a <=? ?b] |- _ => destruct (Z.leb_spec a b)
         end; simpl in *; try reflexivity; try discriminate; try lia.

Lemma ranks_before_trans x y z :
  ranks_before x y = true -> ranks_before y z = true -> ranks_before x z = true.
Proof. intros H1 H2. ranks_cases. Qed.

Lemma ranks_before_total x y : ranks_before x y = false -> ranks_before y x = true.
Proof. intros H. ranks_cases. Qed.

Lemma insert_ranked_perm x l : Permutation (insert_ranked x l) (x :: l).
Proof.
  induction l as [|y l IH]; simpl; [reflexivity|].
  destruct (ranks_before x y); [reflexivity|].
  rewrite IH. apply perm_swap.
Qed.

Lemma sort_ranked_perm l : Permutation (sort_ranked l) l.
Proof.
  induction l as [|x l IH]; simpl; [reflexivity|].
  rewrite insert_ranked_perm, IH. reflexivity.
Qed.

Lemma insert_ranked_sorted x l :
  Sorted (fun a b => ranks_before a b = true) l ->
  Sorted (fun a b => ranks_before a b = true) (insert_ranked x l).
Proof.
  induction l as [|y l IH]; intros Hs; simpl; [repeat constructor|].
  destruct (ranks_before x y) eqn:E; [constructor; [exact Hs|constructor; exact E]|].
  apply Sorted_inv in Hs as [Hs Hhd]. constructor; [apply IH; exact Hs|].
  destruct l as [|z l']; simpl; [constructor; apply ranks_before_total; exact E|].
  destruct (ranks_before x z); constructor; [apply ranks_before_total; exact E|].
  inversion Hhd; assumption.
Qed.

Lemma sort_ranked_sorted l :
  StronglySorted (fun a b => ranks_before a b = true) (sort_ranked l).
Proof.
  apply Sorted_StronglySorted; [intros a b c; apply ranks_before_trans|].
  induction l as [|x l IH]; simpl; [constructor|]. apply insert_ranked_sorted, IH.
Qed.

Lemma fmap_is_map {A B} (f : A -> B) l : f <$> l = map f l.
Proof. induction l as [|x l IH]; [reflexivity|]. rewrite fmap_cons, IH. reflexivity. Qed.

Lemma NoDup_map_filter {A B} (g : A -> B) f l :
  List.NoDup (map g l) -> List.NoDup (map g (List.filter f l)).
Proof.
  induction l as [|x l IH]; simpl; intros Hn; [constructor|].
  inversion Hn as [|? ? Hx Hl]; subst. destruct (f x); simpl; [|apply IH; exact Hl].
  constructor; [|apply IH; exact Hl].
  intros Hin. apply Hx. apply in_map_iff in Hin as [y [Hy Hin]].
  apply List.filter_In in Hin as [Hin _]. apply in_map_iff. exists y. split; assumption.
Qed.



Lemma trending_rows_take tbl ints user_id req :
  trending_rows tbl ints user_id req =
  take (Z.to_nat (rq_limit req)) (sort_ranked (trending_candidates tbl ints user_id req)).
Proof. unfold trending_rows, trending_candidates. destruct (rq_exclude_read req); reflexivity. Qed.

Lemma existsb_string_In s l : existsb (String.eqb s) l = true <-> In s l.
Proof.
  rewrite existsb_exists. split.
  - intros [x [Hx Heq]]. apply String.eqb_eq in Heq. subst. exact Hx.
  - intros Hs. exists s. split; [exact Hs|apply String.eqb_refl].
Qed.

Lemma existsb_Z_In z l : existsb (Z.eqb z) l = true <-> In z l.
Proof.
  rewrite existsb_exists. split.
  - intros [x [Hx Heq]]. apply Z.eqb_eq in Heq. subst. exact Hx.
  - intros Hs. exists z. split; [exact Hs|apply Z.eqb_refl].
Qed.

Lemma trending_candidates_In tbl ints user_id req i a :
  In (i, a) (trending_candidates tbl ints user_id req) <->
  trending_eligible tbl ints user_id req i a.
Proof.
  unfold trending_candidates, trending_eligible.
  assert (Hb : In (i, a) (List.filter (fun r => is_published r.2) (map_to_list tbl)) <->
               tbl !! i = Some a /\ is_published a = true).
  { rewrite List.filter_In, <- list_elem_of_In, elem_of_map_to_list. reflexivity. }
  assert (Hc : In (i, a) (match rq_categories req with
                | Some ((_ :: _) as cats) =>
                    List.filter (fun r => existsb (String.eqb (a_category r.2)) cats)
                      (List.filter (fun r => is_published r.2) (map_to_list tbl))
                | _ => List.filter (fun r => is_published r.2) (map_to_list tbl)
                end) <->
               (tbl !! i = Some a /\ is_published a = true) /\
               (forall cats, rq_categories req = Some cats -> cats <> [] ->
                             In (a_category a) cats)).
  { destruct (rq_categories req) as [[|c cs]|].
    - rewrite Hb. split; [intros H; split; [exact H|]; intros cats [= <-] Hne; congruence|tauto].
    - rewrite List.filter_In, Hb. cbn [snd]. rewrite existsb_string_In. split.
      + intros [H1 H2]. split; [exact H1|]. intros cats [= <-] _. exact H2.
      + intros [H1 H2]. split; [exact H1|]. apply (H2 (c :: cs) eq_refl). discriminate.
    - rewrite Hb. split; [intros H; split; [exact H|]; discriminate|tauto]. }
  destruct (rq_exclude_read req).
  - rewrite List.filter_In, Hc. cbn [fst]. rewrite negb_true_iff.
    split.
    + intros [[[H1 H2] H3] H4]. split; [exact H1|]. split; [exact H2|]. split; [exact H3|].
      intros _ Hin. apply existsb_Z_In in Hin. congruence.
    + intros [H1 [H2 [H3 H4]]]. split; [tauto|].
      destruct (existsb (Z.eqb i) (read_article_ids user_id ints)) eqn:E; [|reflexivity].
      apply existsb_Z_In in E. exfalso. exact (H4 eq_refl E).
  - rewrite Hc. split; [intros [[H1 H2] H3]; repeat split; try assumption; discriminate|tauto].
Qed.

Lemma trending_candidates_NoDup tbl ints user_id req :
  List.NoDup (map fst (trending_candidates tbl ints user_id req)).
Proof.
  unfold trending_candidates.
  assert (H0 : List.NoDup (map fst (List.filter (fun r => is_published r.2) (map_to_list tbl)))).
  { apply NoDup_map_filter. rewrite <- fmap_is_map. apply NoDup_ListNoDup, NoDup_fst_map_to_list. }
  assert (H1 : List.NoDup (map fst (match rq_categories req with
                | Some ((_ :: _) as cats) =>
                    List.filter (fun r => existsb (String.eqb (a_category r.2)) cats)
                      (List.filter (fun r => is_published r.2) (map_to_list tbl))
                | _ => List.filter (fun r => is_published r.2) (map_to_list tbl)
                end))).
  { destruct (rq_categories req) as [[|c cs]|]; try exact H0. apply NoDup_map_filter, H0. }
  destruct (rq_exclude_read req); [apply NoDup_map_filter|]; exact H1.
Qed.

Lemma take_drop_In {A} (x : A) n l : In x l -> ~ In x (take n l) -> In x (drop n l).
Proof.
  intros H Hn. rewrite <- (take_drop n l) in H. apply in_app_or in H as [H|H]; [contradiction|exact H].
Qed.

(** The trending fallback returns at most [limit] distinct published articles
    that pass the category and already-read filters, in ranking order; an
    eligible article is left out only when [limit] rows rank before it. *)
Theorem trending_rows_spec tbl ints user_id req :
  let rows := trending_rows tbl ints user_id req in
  (length rows <= Z.to_nat (rq_limit req))%nat /\
  List.NoDup (map fst rows) /\
  StronglySorted (fun x y => ranks_before x y = true) rows /\
  (forall i a, In (i, a) rows -> trending_eligible tbl ints user_id req i a) /\
  (forall i a, trending_eligible tbl ints user_id req i a -> ~ In (i, a) rows ->
     length rows = Z.to_nat (rq_limit req) /\
     forall x, In x rows -> ranks_before x (i, a) = true).
Proof.
  cbv zeta. rewrite trending_rows_take.
  set (cands := trending_candidates tbl ints user_id req).
  set (k := Z.to_nat (rq_limit req)).
  pose proof (sort_ranked_perm cands) as Hp.
  pose proof (sort_ranked_sorted cands) as Hs.
  rewrite <- (take_drop k (sort_ranked cands)) in Hs.
  split; [rewrite length_take; lia|].
  split.
  { rewrite <- firstn_map. apply (NoDup_app_remove_r _ (skipn k (map fst (sort_ranked cands)))).
    rewrite take_drop.
    apply (Permutation_NoDup (Permutation_map fst (Permutation_sym Hp))).
    apply trending_candidates_NoDup. }
  split; [exact (StronglySorted_app_l _ _ _ Hs)|].
  split.
  { intros i a Hin. apply trending_candidates_In.
    apply (Permutation_in _ Hp). rewrite <- (take_drop k (sort_ranked cands)). apply in_or_app. left. exact Hin. }
  intros i a He Hn.
  apply trending_candidates_In in He.
  apply (Permutation_in _ (Permutation_sym Hp)) in He.
  apply (take_drop_In _ k) in He; [|exact Hn].
  split.
  - rewrite length_take. apply Nat.min_l.
    assert (length (drop k (sort_ranked cands)) <> 0%nat)
      by (destruct (drop k (sort_ranked cands)); [destruct He|discriminate]).
    rewrite length_drop in H. lia.
  - intros x Hx. exact (StronglySorted_app_between _ _ _ _ _ Hs Hx He).
Qed.

Lemma dedup_first_In seen ids x :
  In x (dedup_first seen ids) <-> In x ids /\ ~ In x seen.
Proof.
  revert seen; induction ids as [|y ids IH]; intros seen; simpl; [tauto|].
  destruct (existsb (Z.eqb y) seen) eqn:E.
  - apply existsb_Z_In in E. rewrite IH. split; [tauto|].
    intros [[<-|H1] H2]; [contradiction|tauto].
  - simpl. rewrite IH. simpl. split.
    + intros [<-|[H1 H2]]; [|tauto]. split; [left; reflexivity|].
      intros Hin. apply existsb_Z_In in Hin. congruence.
    + intros [[<-|H1] H2]; [left; reflexivity|].
      destruct (Z.eq_dec y x) as [<-|Hne]; [left; reflexivity|right; split; [exact H1|tauto]].
Qed.

Lemma dedup_first_NoDup seen ids : List.NoDup (dedup_first seen ids).
Proof.
  revert seen; induction ids as [|y ids IH]; intros seen; simpl; [constructor|].
  destruct (existsb (Z.eqb y) seen); [apply IH|].
  constructor; [|apply IH]. rewrite dedup_first_In. simpl. tauto.
Qed.

Lemma dedup_first_length seen ids : (length (dedup_first seen ids) <= length ids)%nat.
Proof.
  revert seen; induction ids as [|y ids IH]; intros seen; simpl; [lia|].
  destruct (existsb (Z.eqb y) seen); simpl; [specialize (IH seen)|specialize (IH (y :: seen))]; lia.
Qed.


Lemma list_omap_cons {A B} (f : A -> option B) x l :
  omap f (x :: l) = match f x with Some y => y :: omap f l | None => omap f l end.
Proof. reflexivity. Qed.

Lemma articles_by_ids_unfold tbl l :
  omap (fun i => match tbl !! i with
                 | Some a => if is_published a then Some (i, a) else None
                 | None => None
                 end) l =
  map (fun i => (i, match tbl !! i with Some a => a | None => mkArticle Draft "" 0 0 end))
      (List.filter (published_in tbl) l).
Proof.
  induction l as [|i l IH]; [reflexivity|]. rewrite list_omap_cons. simpl. unfold published_in at 1.
  destruct (tbl !! i) as [a|] eqn:E; [destruct (is_published a)|]; simpl; rewrite ?E, IH; reflexivity.
Qed.

(** Fetching articles by id returns exactly the published articles whose id was
    requested, once each, in the order of their first request. *)
Theorem articles_by_ids_spec tbl ids :
  let rows := articles_by_ids tbl ids in
  (forall i a, In (i, a) rows <-> In i ids /\ tbl !! i = Some a /\ is_published a = true) /\
  map fst rows = List.filter (published_in tbl) (dedup_first [] ids) /\
  List.NoDup (map fst rows) /\
  (length rows <= length ids)%nat.
Proof.
  cbv zeta. unfold articles_by_ids. rewrite articles_by_ids_unfold.
  rewrite map_map. simpl.
  assert (Hm : map (fun x => x) (List.filter (published_in tbl) (dedup_first [] ids)) =
               List.filter (published_in tbl) (dedup_first [] ids)) by apply map_id.
  split; [|split; [exact Hm|split]].
  - intros i a. rewrite in_map_iff. split.
    + intros [j [Hj Hin]]. injection Hj as -> Ha.
      apply List.filter_In in Hin as [Hin Hp]. apply dedup_first_In in Hin as [Hin _].
      unfold published_in in Hp. destruct (tbl !! i) as [b|]; [|discriminate].
      subst b. tauto.
    + intros [Hin [Ha Hp]]. exists i. rewrite Ha. split; [reflexivity|].
      apply List.filter_In. split; [apply dedup_first_In; simpl; tauto|].
      unfold published_in. rewrite Ha. exact Hp.
  - rewrite Hm. apply List.NoDup_filter, dedup_first_NoDup.
  - rewrite length_map. etransitivity; [apply filter_length_le|apply dedup_first_length].
Qed.

Lemma py_slice_to_nonneg_length {A} (xs : list A) k :
  0 <= k -> (length (py_slice_to xs k) <= Z.to_nat k)%nat.
Proof.
  intros Hk. unfold py_slice_to. rewrite (proj2 (Z.leb_le 0 k)) by lia.
  rewrite length_take. lia.
Qed.

Lemma database_outcome_rows w user_id req r :
  0 <= rq_limit req ->
  database_outcome w user_id req = inr r ->
  (length (recommendations r) <= Z.to_nat (rq_limit req))%nat /\
  forall i a, In (i, a) (recommendations r) ->
              w_articles w !! i = Some a /\ is_published a = true.
Proof.
  intros Hk H. unfold database_outcome, fallback_outcome in H.
  destruct (w_rec_cache_ok w); [|discriminate].
  assert (Hfb : w_articles_ok w = true ->
                mkResponse (trending_rows (w_articles w) (w_interactions w) user_id req)
                  "trending_fallback" (w_now w) (w_now w + 3600 * us_per_s) = r ->
                (length (recommendations r) <= Z.to_nat (rq_limit req))%nat /\
                forall i a, In (i, a) (recommendations r) ->
                            w_articles w !! i = Some a /\ is_published a = true).
  { intros _ <-. simpl.
    destruct (trending_rows_spec (w_articles w) (w_interactions w) user_id req)
      as [Hl [_ [_ [Hin _]]]].
    split; [exact Hl|]. intros i a Hia. destruct (Hin i a Hia) as [H1 [H2 _]]. tauto. }
  destruct (latest_active user_id (w_now w) (w_rec_cache w)) as [c|].
  - destruct (py_slice_to (cr_recommended_articles c) (rq_limit req)) as [|j js] eqn:Eids.
    + destruct (w_articles_ok w); [injection H as H; exact (Hfb eq_refl H)|discriminate].
    + destruct (w_articles_ok w); [|discriminate]. injection H as <-. simpl.
      destruct (articles_by_ids_spec (w_articles w) (j :: js)) as [Hin [_ [_ Hl]]].
      split.
      * etransitivity; [exact Hl|]. rewrite <- Eids. apply py_slice_to_nonneg_length. exact Hk.
      * intros i a Hia. apply Hin in Hia. tauto.
  - destruct (w_articles_ok w); [injection H as H; exact (Hfb eq_refl H)|discriminate].
Qed.

(** On a cache miss, a successful FastAPI response holds at most [limit]
    recommendations, each a published article of the database. *)
Theorem fastapi_miss_bounded user_id req w l r :
  memo_hit w (fastapi_cache_key user_id req) = None ->
  0 <= rq_limit req ->
  fst (get_recommendations_fastapi user_id req (w, l)) = inr (HttpOk r) ->
  (length (recommendations r) <= Z.to_nat (rq_limit req))%nat /\
  forall i a, In (i, a) (recommendations r) ->
              w_articles w !! i = Some a /\ is_published a = true.
Proof.
  intros Hm Hk H. unfold get_recommendations_fastapi in H.
  rewrite resolve_result in H. unfold resolve_outcome in H. rewrite Hm in H.
  destruct (database_outcome w user_id (with_user user_id req)) as [e|r'] eqn:E;
    [discriminate|injection H as <-].
  exact (database_outcome_rows _ _ _ _ Hk E).
Qed.

Lemma fastapi_miss_bounded_witness :
  memo_hit busy_world (fastapi_cache_key sample_user default_req) = None /\
  0 <= rq_limit default_req /\
  fst (get_recommendations_fastapi sample_user default_req (busy_world, [])) =
    inr (HttpOk (mkResponse (trending_rows many_articles [] sample_user
                               (with_user sample_user default_req))
                  "trending_fallback" (w_now busy_world)
                  (w_now busy_world + 3600 * us_per_s))) /\
  (length (trending_rows many_articles [] sample_user (with_user sample_user default_req))
     <= Z.to_nat (rq_limit default_req))%nat.
Proof.
  assert (Hm : memo_hit busy_world (fastapi_cache_key sample_user default_req) = None)
    by (vm_compute; reflexivity).
  assert (Hk : 0 <= rq_limit default_req) by (vm_compute; congruence).
  assert (Hr : fst (get_recommendations_fastapi sample_user default_req (busy_world, [])) =
    inr (HttpOk (mkResponse (trending_rows many_articles [] sample_user
                               (with_user sample_user default_req))
                  "trending_fallback" (w_now busy_world)
                  (w_now busy_world + 3600 * us_per_s)))) by (vm_compute; reflexivity).
  split; [exact Hm|]. split; [exact Hk|]. split; [exact Hr|].
  exact (proj1 (fastapi_miss_bounded _ _ _ _ _ Hm Hk Hr)).
Defined.

Lemma cache_in_redis_stored key v w l :
  w_redis_set_ok w = true ->
  cache_in_redis (Some tt) key v (w, l) =
  (inr tt, (set_redis w (<[key := (v, w_now w + 3600 * us_per_s)]> (w_redis w)),
            l ++ [OpRedisSetex key])).
Proof.
  intros Hs. unfold cache_in_redis, redis_setex; unfold_monad; cbn. rewrite Hs. reflexivity.
Qed.

Lemma stored_then_ret key v w l (a : Response) s :
  w_redis_set_ok w = true ->
  (cache_in_redis (Some tt) key v ;; mret a) (w, l) = (inr a, s) ->
  s.1 = set_redis w (<[key := (v, w_now w + 3600 * us_per_s)]> (w_redis w)).
Proof.
  intros Hs H. rewrite bind_run, cache_in_redis_stored in H by exact Hs.
  injection H as <-. reflexivity.
Qed.

Lemma from_database_stores user_id req key w l r s :
  w_redis_set_ok w = true ->
  from_database user_id req key (Some tt) (w, l) = (inr r, s) ->
  s.1 = set_redis w (<[key := (r, w_now w + 3600 * us_per_s)]> (w_redis w)).
Proof.
  intros Hs H. unfold from_database in H. rewrite bind_run, select_rec_cache_run in H.
  destruct (w_rec_cache_ok w); [|discriminate].
  assert (Hfb : trending_fallback user_id req key (Some tt) (w, l ++ [OpSelectRecCache]) = (inr r, s) ->
                s.1 = set_redis w (<[key := (r, w_now w + 3600 * us_per_s)]> (w_redis w))).
  { unfold trending_fallback. rewrite bind_run, select_trending_run.
    destruct (w_articles_ok w); [|discriminate]. rewrite get_world_bind. cbn [fst].
    intros Ht. pose proof Ht as Ht'.
    rewrite bind_run, cache_in_redis_stored in Ht' by exact Hs.
    injection Ht' as <- _. exact (stored_then_ret _ _ _ _ _ _ Hs Ht). }
  destruct (latest_active user_id (w_now w) (w_rec_cache w)) as [c|]; [|exact (Hfb H)].
  destruct (py_slice_to (cr_recommended_articles c) (rq_limit req)) as [|j js]; [exact (Hfb H)|].
  rewrite bind_run, select_articles_by_ids_run in H.
  destruct (w_articles_ok w); [|discriminate].
  pose proof H as H'. rewrite bind_run, cache_in_redis_stored in H' by exact Hs.
  injection H' as <- _. exact (stored_then_ret _ _ _ _ _ _ Hs H).
Qed.

(** With Redis up, a cache miss that succeeds stores the response for an hour;
    the next call with the same key answers from the cache with the same
    response, without touching the database. *)
Theorem memo_round_trip user_id req key w l r w' l' :
  w_redis_connect_ok w = true -> w_redis_get_ok w = true -> w_redis_set_ok w = true ->
  memo_hit w key = None ->
  resolve user_id req key (w, l) = (inr (HttpOk r), (w', l')) ->
  w' = set_redis w (<[key := (r, w_now w + 3600 * us_per_s)]> (w_redis w)) /\
  memo_hit w' key = Some r /\
  forall l2, resolve user_id req key (w', l2) =
             (inr (HttpOk r), (w', (l2 ++ [OpRedisConnect]) ++ [OpRedisGet key])).
Proof.
  intros Hc Hg Hs Hm H.
  unfold resolve, catch at 1 in H. rewrite bind_run, check_redis_run, Hc, Hm in H.
  rewrite bind_run in H.
  destruct (from_database user_id req key (Some tt) (w, (l ++ [OpRedisConnect]) ++ [OpRedisGet key]))
    as [[e|r0] s0] eqn:Ef; [discriminate|].
  injection H as -> ->.
  pose proof (from_database_stores _ _ _ _ _ _ _ Hs Ef) as Hw. cbn in Hw. subst w'.
  assert (Hhit : memo_hit (set_redis w (<[key := (r, w_now w + 3600 * us_per_s)]> (w_redis w))) key
                 = Some r).
  { unfold memo_hit, set_redis. cbn. rewrite Hc, Hg, lookup_insert_eq. cbn.
    rewrite (proj2 (Z.ltb_lt _ _)) by (unfold us_per_s; lia). reflexivity. }
  split; [reflexivity|]. split; [exact Hhit|].
  intros l2. apply resolve_memo_hit. exact Hhit.
Qed.

Lemma memo_round_trip_witness :
  match resolve sample_user default_req "k" (sample_world ∅ true [sample_entry [2; 1]] true, []) with
  | (inr (HttpOk r), (w', _)) => memo_hit w' "k" = Some r
  | _ => False
  end.
Proof.
  destruct (resolve sample_user default_req "k" (sample_world ∅ true [sample_entry [2; 1]] true, []))
    as [[e|[r|st msg]] [w' l']] eqn:E;
    [vm_compute in E; discriminate| |vm_compute in E; discriminate].
  assert (Hm : memo_hit (sample_world ∅ true [sample_entry [2; 1]] true) "k" = None)
    by (vm_compute; reflexivity).
  exact (proj1 (proj2 (memo_round_trip sample_user default_req "k"
                         (sample_world ∅ true [sample_entry [2; 1]] true) [] r w' l'
                         eq_refl eq_refl eq_refl Hm E))).
Defined.

Lemma dict_set_set k v v' d : dict_set k v (dict_set k v' d) = dict_set k v d.
Proof.
  induction d as [|[k0 v0] d IH]; simpl.
  - rewrite String.eqb_refl. reflexivity.
  - destruct (String.eqb k k0) eqn:E; simpl; rewrite E; [reflexivity|]. rewrite IH. reflexivity.
Qed.

Lemma dict_get_set_same k v d : dict_get k (dict_set k v d) = Some v.
Proof.
  induction d as [|[k0 v0] d IH]; simpl; [rewrite String.eqb_refl; reflexivity|].
  destruct (String.eqb k k0) eqn:E; simpl; rewrite E; [reflexivity|exact IH].
Qed.

Lemma dict_get_set_other k k' v d : k <> k' -> dict_get k (dict_set k' v d) = dict_get k d.
Proof.
  intros Hne. induction d as [|[k0 v0] d IH]; simpl.
  - destruct (String.eqb_spec k k'); [contradiction|reflexivity].
  - destruct (String.eqb_spec k' k0) as [<-|Hne']; simpl.
    + destruct (String.eqb_spec k k'); [contradiction|reflexivity].
    + rewrite IH. reflexivity.
Qed.

(** The id of the authenticated user wins: a [user_id] in the Flask JSON body
    (whatever the validator) or in the FastAPI request model changes nothing,
    since both handlers overwrite it with [current_user['id']]. *)
Theorem user_id_from_auth_wins validate user_id body v req o :
  flask_handler validate user_id (dict_set "user_id" v body) =
  flask_handler validate user_id body /\
  get_recommendations_fastapi user_id
    (mkRecReq o (rq_limit req) (rq_categories req) (rq_exclude_read req)
       (rq_diversity_weight req)) =
  get_recommendations_fastapi user_id req.
Proof. split; [unfold flask_handler; rewrite dict_set_set|]; reflexivity. Qed.

(** The Flask endpoint answers 400 [Validation error], before any Redis or
    database access, when [limit] is an integer outside [1 .. 100]. *)
Theorem flask_rejects_bad_limit user_id body n s :
  dict_get "limit" body = Some (VInt n) ->
  n < 1 \/ 100 < n ->
  get_recommendations_flask user_id body s = (inr (HttpError 400 "Validation error"), s).
Proof.
  intros Hl Hn. unfold get_recommendations_flask, flask_handler, parse_request.
  rewrite dict_get_set_same, (dict_get_set_other "limit" "user_id"), Hl by discriminate. simpl.
  rewrite (proj2 (andb_false_iff _ _)); [reflexivity|].
  destruct Hn; [left; apply Z.leb_gt|right; apply Z.leb_gt]; lia.
Qed.

Lemma flask_rejects_bad_limit_witness :
  get_recommendations_flask sample_user [("limit", VInt 500)] (busy_world, []) =
  (inr (HttpError 400 "Validation error"), (busy_world, [])).
Proof.
  apply flask_rejects_bad_limit with (n := 500); [reflexivity|]. lia.
Defined.

(* ------------------------------------------------------------------ *)
(** ** HTML sanitizing, e-mail validation, bearer tokens *)

(* ---- sanitize_html ---- *)

Lemma lower_char_lt c : Ascii.eqb "<"%char (lower_char c) = Ascii.eqb "<"%char c.
Proof.
  destruct c as [b0 b1 b2 b3 b4 b5 b6 b7].
  destruct b0, b1, b2, b3, b4, b5, b6, b7; vm_compute; reflexivity.
Qed.

Lemma is_prefix_length p l : is_prefix p l = true -> (length p <= length l)%nat.
Proof.
  revert l; induction p as [|x p IH]; intros [|y l] H; simpl in *; try lia; try discriminate.
  apply andb_true_iff in H as [_ H]. specialize (IH l H). lia.
Qed.

Lemma skip_past_gt_suffix cs r :
  skip_past_gt cs = Some r -> exists p, cs = p ++ r /\ p <> [].
Proof.
  induction cs as [|c cs IH]; simpl; intros H; [discriminate|].
  destruct (Ascii.eqb c ">"%char).
  - injection H as <-. exists [c]. split; [reflexivity|discriminate].
  - destruct (IH H) as [p [-> _]]. exists (c :: p). split; [reflexivity|discriminate].
Qed.

Lemma find_close_suffix close cs r :
  find_close close cs = Some r -> exists p, cs = p ++ r.
Proof.
  induction cs as [|c cs IH]; simpl; intros H.
  - destruct (ci_prefix close []); [|discriminate]. injection H as <-.
    exists []. rewrite drop_nil. reflexivity.
  - destruct (ci_prefix close (c :: cs)).
    + injection H as <-. exists (take (length close) (c :: cs)). symmetry. apply take_drop.
    + destruct (IH H) as [p ->]. exists (c :: p). reflexivity.
Qed.

Lemma drop_suffix {A} n (cs : list A) : exists p, cs = p ++ drop n cs.
Proof. exists (take n cs). symmetry. apply take_drop. Qed.


Lemma ci_prefix_open tag cs :
  ci_prefix (open_tag tag) cs = true ->
  exists cs', cs = "<"%char :: cs' /\ ci_prefix tag cs' = true.
Proof.
  unfold ci_prefix, open_tag. destruct cs as [|c cs']; cbn [map is_prefix]; [discriminate|].
  intros H. apply andb_true_iff in H as [H1 H2].
  rewrite lower_char_lt in H1. apply Ascii.eqb_eq in H1. subst c.
  exists cs'. split; [reflexivity|exact H2].
Qed.

Lemma match_tag_lt tag : lt_match (match_tag tag).
Proof.
  intros cs r H. unfold match_tag in H.
  destruct (ci_prefix (open_tag tag) cs) eqn:E; [|discriminate].
  destruct (ci_prefix_open _ _ E) as [cs' [-> _]].
  apply skip_past_gt_suffix in H as [p [Hp _]].
  destruct (drop_suffix (length tag) cs') as [q Hq].
  exists (q ++ p). rewrite <- app_assoc, <- Hp. simpl in Hq |- *. rewrite <- Hq. reflexivity.
Qed.

Lemma match_element_lt tag : lt_match (match_element tag).
Proof.
  intros cs r H. unfold match_element in H.
  destruct (ci_prefix (open_tag tag) cs) eqn:E; [|discriminate].
  destruct (ci_prefix_open _ _ E) as [cs' [-> _]].
  destruct (skip_past_gt (drop (length (open_tag tag)) ("<"%char :: cs'))) as [rest|] eqn:Es;
    [|discriminate].
  simpl in H. apply find_close_suffix in H as [p1 Hp1].
  apply skip_past_gt_suffix in Es as [p [Hp _]].
  destruct (drop_suffix (length tag) cs') as [q Hq].
  exists (q ++ p ++ p1). simpl in Hp. rewrite Hp1 in Hp.
  rewrite Hq at 1. rewrite Hp. rewrite !app_assoc. reflexivity.
Qed.

Lemma re_sub_fuel_enough m f1 f2 cs :
  lt_match m -> (length cs < f1)%nat -> (length cs < f2)%nat ->
  re_sub_fuel f1 m cs = re_sub_fuel f2 m cs.
Proof.
  intros Hm. revert f2 cs; induction f1 as [|f1 IH]; intros f2 cs H1 H2; [lia|].
  destruct f2 as [|f2]; [lia|]. simpl.
  destruct (m cs) as [r|] eqn:E.
  - destruct (Hm _ _ E) as [p ->]. apply IH; rewrite length_cons, length_app in *; lia.
  - destruct cs as [|c cs]; [reflexivity|]. f_equal. apply IH; simpl in *; lia.
Qed.

Lemma re_sub_match m cs r : lt_match m -> m cs = Some r -> re_sub m cs = re_sub m r.
Proof.
  intros Hm E. unfold re_sub at 1. simpl. rewrite E.
  destruct (Hm _ _ E) as [p ->]. apply re_sub_fuel_enough; [exact Hm| |lia].
  rewrite length_cons, length_app. lia.
Qed.

Lemma re_sub_skip m c cs : lt_match m -> m (c :: cs) = None -> re_sub m (c :: cs) = c :: re_sub m cs.
Proof.
  intros Hm E. unfold re_sub at 1. simpl. rewrite E. reflexivity.
Qed.

Lemma lt_match_nil m : lt_match m -> m [] = None.
Proof. intros Hm. destruct (m []) as [r|] eqn:E; [|reflexivity]. destruct (Hm _ _ E) as [p Hp]. discriminate. Qed.

Lemma lt_match_other m c cs : lt_match m -> c <> "<"%char -> m (c :: cs) = None.
Proof.
  intros Hm Hc. destruct (m (c :: cs)) as [r|] eqn:E; [|reflexivity].
  destruct (Hm _ _ E) as [p Hp]. injection Hp as Hp. congruence.
Qed.

Lemma re_sub_plain_app m a cs :
  lt_match m -> ~ In "<"%char a -> re_sub m (a ++ cs) = a ++ re_sub m cs.
Proof.
  intros Hm. induction a as [|c a IH]; intros Ha; [reflexivity|].
  simpl. rewrite re_sub_skip; [|exact Hm|apply lt_match_other; [exact Hm|]].
  - rewrite IH; [reflexivity|]. intros H. apply Ha. right. exact H.
  - intros ->. apply Ha. left. reflexivity.
Qed.

Lemma re_sub_plain m cs : lt_match m -> ~ In "<"%char cs -> re_sub m cs = cs.
Proof.
  intros Hm Hc. rewrite <- (app_nil_r cs). rewrite re_sub_plain_app by assumption.
  unfold re_sub. simpl. rewrite (lt_match_nil _ Hm). reflexivity.
Qed.

Lemma re_sub_fuel_sublist m f cs : lt_match m -> sublist (re_sub_fuel f m cs) cs.
Proof.
  intros Hm. revert cs; induction f as [|f IH]; intros cs; simpl; [reflexivity|].
  destruct (m cs) as [r|] eqn:E.
  - destruct (Hm _ _ E) as [p ->]. apply (sublist_inserts_l ("<"%char :: p)), IH.
  - destruct cs as [|c cs]; [constructor|]. apply sublist_skip, IH.
Qed.


Lemma sanitize_html_passes content :
  sanitize_html content =
  string_of_list_ascii (fold_left sanitize_pass dangerous_tags (list_ascii_of_string content)).
Proof. reflexivity. Qed.

Lemma fold_sublist ts cs : sublist (fold_left sanitize_pass ts cs) cs.
Proof.
  revert cs; induction ts as [|t ts IH]; intros cs; simpl; [reflexivity|].
  etransitivity; [apply IH|]. unfold sanitize_pass.
  etransitivity; apply re_sub_fuel_sublist;
    [apply match_tag_lt|apply match_element_lt].
Qed.

(** [sanitize_html] only deletes characters: its output is a subsequence of its
    input. *)
Theorem sanitize_html_sublist content :
  sublist (list_ascii_of_string (sanitize_html content)) (list_ascii_of_string content).
Proof.
  rewrite sanitize_html_passes, list_ascii_of_string_of_list_ascii. apply fold_sublist.
Qed.

Lemma fold_plain ts cs : ~ In "<"%char cs -> fold_left sanitize_pass ts cs = cs.
Proof.
  intros Hc. induction ts as [|t ts IH]; simpl; [reflexivity|].
  unfold sanitize_pass at 2.
  rewrite (re_sub_plain _ _ (match_element_lt _) Hc), (re_sub_plain _ _ (match_tag_lt _) Hc).
  exact IH.
Qed.

(** Text without [<] passes through [sanitize_html] unchanged. *)
Theorem sanitize_html_plain_text content :
  ~ In "<"%char (list_ascii_of_string content) -> sanitize_html content = content.
Proof.
  intros Hc. rewrite sanitize_html_passes, fold_plain by exact Hc.
  apply string_of_list_ascii_of_string.
Qed.

Lemma sanitize_html_plain_text_witness :
  sanitize_html "Markets rally as rates fall; details at 11 > 10." =
  "Markets rally as rates fall; details at 11 > 10.".
Proof.
  apply sanitize_html_plain_text. vm_compute. intros H.
  repeat (destruct H as [H|H]; [discriminate H|]). destruct H.
Defined.

(** Each pass over the text on which a given pass changes nothing. *)
Lemma fold_one ts t X Y :
  In t ts ->
  (forall u, In u ts -> u <> t -> sanitize_pass X u = X) ->
  sanitize_pass X t = Y ->
  (forall u, sanitize_pass Y u = Y) ->
  fold_left sanitize_pass ts X = Y.
Proof.
  induction ts as [|u ts IH]; intros Ht Hother Hpass HY; [destruct Ht|]. simpl.
  destruct (decide (u = t)) as [->|Hne].
  - rewrite Hpass. clear IH Ht Hother. induction ts as [|v ts IH]; simpl; [reflexivity|].
    rewrite HY. exact IH.
  - rewrite (Hother u (or_introl eq_refl) Hne). apply IH; [destruct Ht; [congruence|assumption]| |exact Hpass|exact HY].
    intros v Hv. apply Hother. right. exact Hv.
Qed.

Lemma is_prefix_app_self p x : is_prefix p (p ++ x) = true.
Proof. induction p as [|c p IH]; simpl; [reflexivity|]. rewrite Ascii.eqb_refl. exact IH. Qed.

Lemma is_prefix_app_inv p q x :
  is_prefix p (q ++ x) = true -> is_prefix p q = true \/ is_prefix q p = true.
Proof.
  revert q; induction p as [|c p IH]; intros q H; [left; reflexivity|].
  destruct q as [|d q]; [right; reflexivity|]. simpl in *.
  apply andb_true_iff in H as [H1 H2]. apply Ascii.eqb_eq in H1. subst d.
  rewrite Ascii.eqb_refl. simpl. apply IH. exact H2.
Qed.

Lemma dangerous_tags_incomparable :
  forallb (fun u => forallb (fun t =>
    String.eqb u t || (negb (is_prefix (list_ascii_of_string u) (list_ascii_of_string t))
                       && negb (is_prefix (list_ascii_of_string t) (list_ascii_of_string u))))
    dangerous_tags) dangerous_tags = true.
Proof. vm_compute. reflexivity. Qed.

Lemma dangerous_tags_letters :
  forallb (fun t => forallb is_ascii_lower (list_ascii_of_string t) && negb (String.eqb t ""))
    dangerous_tags = true.
Proof. vm_compute. reflexivity. Qed.

Lemma ci_prefix_open_lt u w :
  ci_prefix (open_tag u) ("<"%char :: w) = is_prefix u (map lower_char w).
Proof. reflexivity. Qed.

Lemma lowered_no_lt w u :
  map lower_char w = u -> forallb is_ascii_lower u = true -> ~ In "<"%char w.
Proof.
  intros <- Hl Hin. apply (in_map lower_char) in Hin.
  rewrite forallb_forall in Hl. specialize (Hl _ Hin). vm_compute in Hl. discriminate.
Qed.

Lemma skip_past_gt_app attrs rest :
  ~ In ">"%char attrs -> skip_past_gt (attrs ++ ">"%char :: rest) = Some rest.
Proof.
  induction attrs as [|c attrs IH]; intros H; [reflexivity|]. simpl.
  destruct (Ascii.eqb_spec c ">"%char) as [->|_]; [exfalso; apply H; left; reflexivity|].
  apply IH. intros Hin. apply H. right. exact Hin.
Qed.

Lemma find_close_skip tl w rest :
  ~ In "<"%char w -> find_close (close_tag tl) (w ++ rest) = find_close (close_tag tl) rest.
Proof.
  induction w as [|c w IH]; intros H; [reflexivity|]. simpl.
  assert (Hc : ci_prefix (close_tag tl) (c :: w ++ rest) = false).
  { unfold ci_prefix, close_tag. cbn [map is_prefix]. rewrite lower_char_lt.
    destruct (Ascii.eqb_spec "<"%char c) as [<-|_]; [exfalso; apply H; left; reflexivity|reflexivity]. }
  rewrite Hc. apply IH. intros Hin. apply H. right. exact Hin.
Qed.

Lemma find_close_here close cs :
  ci_prefix close cs = true -> find_close close cs = Some (drop (length close) cs).
Proof. intros H. destruct cs; simpl; rewrite H; reflexivity. Qed.

Lemma match_element_removes tl tag_text close_text attrs body b :
  map lower_char tag_text = tl -> map lower_char close_text = tl ->
  ~ In ">"%char attrs -> ~ In "<"%char body ->
  match_element tl ("<"%char :: tag_text ++ attrs ++ ">"%char :: body ++
                    "<"%char :: "/"%char :: close_text ++ ">"%char :: b) = Some b.
Proof.
  intros Ht Hc Ha Hb. unfold match_element.
  rewrite ci_prefix_open_lt, map_app, Ht, is_prefix_app_self.
  unfold open_tag. cbn [length drop].
  replace (length tl) with (length tag_text) by (rewrite <- Ht, length_map; reflexivity).
  rewrite drop_app_length, skip_past_gt_app by exact Ha.
  cbn [mbind option_bind]. rewrite find_close_skip by exact Hb.
  assert (Hl : map lower_char ("<"%char :: "/"%char :: close_text ++ ">"%char :: b) =
               close_tag tl ++ map lower_char b).
  { unfold close_tag. cbn [map]. rewrite map_app, Hc. cbn [map app].
    rewrite <- app_assoc. reflexivity. }
  rewrite find_close_here by (unfold ci_prefix; rewrite Hl; apply is_prefix_app_self).
  replace ("<"%char :: "/"%char :: close_text ++ ">"%char :: b)
    with (("<"%char :: "/"%char :: close_text ++ [">"%char]) ++ b)
    by (simpl; rewrite <- app_assoc; reflexivity).
  replace (length (close_tag tl)) with (length ("<"%char :: "/"%char :: close_text ++ [">"%char]))
    by (unfold close_tag; simpl; rewrite !length_app, <- Hc, length_map; reflexivity).
  rewrite drop_app_length. reflexivity.
Qed.

Lemma re_sub_element_text m a tag_text attrs body close_text b :
  lt_match m ->
  ~ In "<"%char (a ++ tag_text ++ attrs ++ body ++ close_text ++ b) ->
  m ("<"%char :: tag_text ++ attrs ++ ">"%char :: body ++
     "<"%char :: "/"%char :: close_text ++ ">"%char :: b) = None ->
  m ("<"%char :: "/"%char :: close_text ++ ">"%char :: b) = None ->
  re_sub m (a ++ "<"%char :: tag_text ++ attrs ++ ">"%char :: body ++
            "<"%char :: "/"%char :: close_text ++ ">"%char :: b) =
  a ++ "<"%char :: tag_text ++ attrs ++ ">"%char :: body ++
  "<"%char :: "/"%char :: close_text ++ ">"%char :: b.
Proof.
  intros Hm Hno H1 H2. rewrite !in_app_iff in Hno.
  rewrite re_sub_plain_app by (exact Hm || tauto). f_equal.
  rewrite re_sub_skip by assumption. f_equal.
  replace (tag_text ++ attrs ++ ">"%char :: body ++ "<"%char :: "/"%char :: close_text ++ ">"%char :: b)
    with ((tag_text ++ attrs ++ ">"%char :: body) ++ "<"%char :: "/"%char :: close_text ++ ">"%char :: b)
    by (rewrite <- !app_assoc; reflexivity).
  rewrite re_sub_plain_app; [|exact Hm|].
  - f_equal. rewrite re_sub_skip by assumption. f_equal. apply re_sub_plain; [exact Hm|].
    simpl. rewrite in_app_iff. simpl. intros [H|[H|[H|H]]]; [discriminate H|tauto|discriminate H|tauto].
  - rewrite !in_app_iff. simpl. intros [H|[H|[H|H]]]; [tauto|tauto|discriminate H|tauto].
Qed.

Lemma no_open_no_match u cs :
  ci_prefix (open_tag u) cs = false -> match_tag u cs = None /\ match_element u cs = None.
Proof. intros H. unfold match_tag, match_element. rewrite H. split; reflexivity. Qed.

Lemma dangerous_tag_facts u :
  In u dangerous_tags ->
  forallb is_ascii_lower (list_ascii_of_string u) = true /\ list_ascii_of_string u <> [].
Proof.
  intros Hu. pose proof dangerous_tags_letters as H. rewrite forallb_forall in H.
  specialize (H u Hu). apply andb_true_iff in H as [H1 H2]. split; [exact H1|].
  destruct u; [discriminate|discriminate].
Qed.

Lemma dangerous_tags_distinct u t :
  In u dangerous_tags -> In t dangerous_tags -> u <> t ->
  is_prefix (list_ascii_of_string u) (list_ascii_of_string t) = false /\
  is_prefix (list_ascii_of_string t) (list_ascii_of_string u) = false.
Proof.
  intros Hu Ht Hne. pose proof dangerous_tags_incomparable as H.
  rewrite forallb_forall in H. specialize (H u Hu). rewrite forallb_forall in H.
  specialize (H t Ht). apply orb_true_iff in H as [H|H].
  - apply String.eqb_eq in H. contradiction.
  - apply andb_true_iff in H as [H1 H2]. apply negb_true_iff in H1, H2. split; assumption.
Qed.

(** A dangerous element written in any letter case, with attributes and a body
    free of [<], is removed together with its body. *)
Theorem sanitize_html_removes_element t tag_text close_text a attrs body b :
  In t dangerous_tags ->
  map lower_char tag_text = list_ascii_of_string t ->
  map lower_char close_text = list_ascii_of_string t ->
  ~ In "<"%char (a ++ attrs ++ body ++ b) ->
  ~ In ">"%char attrs ->
  sanitize_html (string_of_list_ascii
    (a ++ "<"%char :: tag_text ++ attrs ++ ">"%char :: body ++
     "<"%char :: "/"%char :: close_text ++ ">"%char :: b)) =
  string_of_list_ascii (a ++ b).
Proof.
  intros Ht Htag Hclose Hno Hgt.
  destruct (dangerous_tag_facts t Ht) as [Hlow _].
  pose proof (lowered_no_lt _ _ Htag Hlow) as Hnt.
  pose proof (lowered_no_lt _ _ Hclose Hlow) as Hnc.
  rewrite !in_app_iff in Hno.
  assert (Hab : ~ In "<"%char (a ++ b)) by (rewrite in_app_iff; tauto).
  rewrite sanitize_html_passes, list_ascii_of_string_of_list_ascii. f_equal.
  apply (fold_one _ t); [exact Ht| | |].
  - intros u Hu Hne. unfold sanitize_pass.
    destruct (dangerous_tags_distinct u t Hu Ht Hne) as [Hut Htu].
    destruct (dangerous_tag_facts u Hu) as [Hul Hune].
    assert (Hn1 : forall R, ci_prefix (open_tag (list_ascii_of_string u))
                              ("<"%char :: tag_text ++ R) = false).
    { intros R. rewrite ci_prefix_open_lt, map_app, Htag.
      destruct (is_prefix (list_ascii_of_string u) (list_ascii_of_string t ++ map lower_char R))
        eqn:E; [|reflexivity].
      apply is_prefix_app_inv in E as [E|E]; congruence. }
    assert (Hn2 : forall R, ci_prefix (open_tag (list_ascii_of_string u))
                              ("<"%char :: "/"%char :: R) = false).
    { intros R. rewrite ci_prefix_open_lt.
      destruct (list_ascii_of_string u) as [|c ul] eqn:Eu; [contradiction|].
      cbn [map is_prefix]. destruct (Ascii.eqb_spec c (lower_char "/"%char)) as [Ec|_]; [|reflexivity].
      simpl in Hul. vm_compute in Ec. subst c. vm_compute in Hul. discriminate. }
    assert (Hno' : ~ In "<"%char (a ++ tag_text ++ attrs ++ body ++ close_text ++ b))
      by (rewrite !in_app_iff; tauto).
    rewrite re_sub_element_text; [|apply match_element_lt|exact Hno'|apply no_open_no_match, Hn1|apply no_open_no_match, Hn2].
    apply re_sub_element_text; [apply match_tag_lt|exact Hno'|apply no_open_no_match, Hn1|apply no_open_no_match, Hn2].
  - unfold sanitize_pass.
    rewrite re_sub_plain_app by (exact (match_element_lt _) || tauto).
    rewrite (re_sub_match _ _ b (match_element_lt _)).
    + rewrite (re_sub_plain _ b (match_element_lt _)) by tauto.
      apply re_sub_plain; [apply match_tag_lt|exact Hab].
    + apply match_element_removes; (exact Htag || exact Hclose || exact Hgt || tauto).
  - intros u. unfold sanitize_pass.
    rewrite (re_sub_plain _ _ (match_element_lt _) Hab).
    exact (re_sub_plain _ _ (match_tag_lt _) Hab).
Qed.

Ltac not_in_tac :=
  vm_compute; let H := fresh in intros H;
  repeat (destruct H as [H|H]; [discriminate H|]); destruct H.

Lemma sanitize_html_removes_element_witness :
  sanitize_html (string_of_list_ascii
    (list_ascii_of_string "Hello " ++ "<"%char :: list_ascii_of_string "ScRiPt" ++
     list_ascii_of_string " src=x.js" ++ ">"%char :: list_ascii_of_string "alert(1)" ++
     "<"%char :: "/"%char :: list_ascii_of_string "SCRIPT" ++ ">"%char ::
     list_ascii_of_string " world")) =
  string_of_list_ascii (list_ascii_of_string "Hello " ++ list_ascii_of_string " world").
Proof.
  apply (sanitize_html_removes_element "script");
    [left; reflexivity|reflexivity|reflexivity|not_in_tac|not_in_tac].
Defined.


Lemma split_tags_table :
  forallb (fun t =>
    let tl := list_ascii_of_string t in
    forallb (fun k =>
      String.eqb (sanitize_html (string_of_list_ascii (split_tag_input (take k tl) (drop k tl) tl)))
                 (string_of_list_ascii ("<"%char :: tl ++ [">"%char])))
      (seq 1 (length tl - 1)))
    dangerous_tags = true.
Proof. vm_compute. reflexivity. Qed.

(** A single pass does not sanitize nested input: a dangerous tag split by
    another one, as in [<scr<script>ipt>], comes out as the whole tag. *)
Theorem sanitize_html_reassembles t p q :
  In t dangerous_tags ->
  list_ascii_of_string t = p ++ q -> p <> [] -> q <> [] ->
  sanitize_html (string_of_list_ascii
    ("<"%char :: p ++ "<"%char :: list_ascii_of_string t ++ ">"%char :: q ++ [">"%char])) =
  string_of_list_ascii ("<"%char :: list_ascii_of_string t ++ [">"%char]).
Proof.
  intros Ht Hpq Hp Hq.
  pose proof split_tags_table as H. rewrite forallb_forall in H.
  specialize (H t Ht). cbv zeta in H. rewrite forallb_forall in H.
  assert (Hk : In (length p) (seq 1 (length (list_ascii_of_string t) - 1))).
  { apply in_seq. rewrite Hpq, length_app.
    destruct p; [contradiction|]. destruct q; [contradiction|]. simpl. lia. }
  specialize (H _ Hk). apply String.eqb_eq in H.
  rewrite Hpq in H at 1 2. rewrite take_app_length, drop_app_length in H.
  exact H.
Qed.

Lemma sanitize_html_reassembles_witness :
  sanitize_html "<scr<script>ipt>" = "<script>".
Proof.
  exact (sanitize_html_reassembles "script" (list_ascii_of_string "scr")
           (list_ascii_of_string "ipt") (or_introl eq_refl) eq_refl
           ltac:(discriminate) ltac:(discriminate)).
Defined.

(* ---- validate_email ---- *)


Lemma rep_match_spec p n cs k :
  rep_match p n cs k = true <->
  exists xs ys, cs = xs ++ ys /\ (n <= length xs)%nat /\
                Forall (fun c => p c = true) xs /\ k ys = true.
Proof.
  revert n; induction cs as [|c cs IH]; intros n; simpl.
  - rewrite andb_true_iff, Nat.eqb_eq. split.
    + intros [-> Hk]. exists [], []. repeat split; [lia|constructor|exact Hk].
    + intros [xs [ys [Hxy [Hn [_ Hk]]]]]. symmetry in Hxy. apply app_eq_nil in Hxy as [-> ->].
      simpl in Hn. split; [lia|exact Hk].
  - rewrite orb_true_iff, !andb_true_iff, IH, Nat.eqb_eq. split.
    + intros [[Hc [xs [ys [-> [Hn [Hf Hk]]]]]]|[-> Hk]].
      * exists (c :: xs), ys. repeat split; [simpl; lia|constructor; assumption|exact Hk].
      * exists [], (c :: cs). repeat split; [simpl; lia|constructor|exact Hk].
    + intros [[|x xs] [ys [Hxy [Hn [Hf Hk]]]]].
      * right. simpl in Hn, Hxy. split; [lia|]. rewrite Hxy. exact Hk.
      * left. injection Hxy as -> ->. apply Forall_cons in Hf as [Hx Hf].
        split; [exact Hx|]. exists xs, ys. repeat split; [simpl in Hn; lia|exact Hf|exact Hk].
Qed.

Lemma rx_match_spec r cs k :
  rx_match r cs k = true <-> exists rest, rx_matches r cs rest /\ k rest = true.
Proof.
  revert cs k; induction r as [p|p n|r1 IH1 r2 IH2|]; intros cs k; simpl.
  - destruct cs as [|c cs]; split.
    + discriminate.
    + intros [rest [[c [Hc _]] _]]. discriminate.
    + intros H. apply andb_true_iff in H as [Hp Hk]. exists cs. split; [exists c; split; [reflexivity|exact Hp]|exact Hk].
    + intros [rest [[c' [Hc Hp]] Hk]]. injection Hc as -> ->. rewrite Hp. exact Hk.
  - rewrite rep_match_spec. split.
    + intros [xs [ys [Hxy [Hn [Hf Hk]]]]]. exists ys. split; [exists xs; tauto|exact Hk].
    + intros [rest [[xs [Hxy [Hn Hf]]] Hk]]. exists xs, rest. tauto.
  - rewrite IH1. split.
    + intros [mid [H1 H2]]. apply IH2 in H2 as [rest [H2 Hk]].
      exists rest. split; [exists mid; split; assumption|exact Hk].
    + intros [rest [[mid [H1 H2]] Hk]]. exists mid. split; [exact H1|].
      apply IH2. exists rest. split; assumption.
  - destruct cs as [|c [|c' cs]]; split.
    + intros Hk. exists []. split; [split; [reflexivity|left; reflexivity]|exact Hk].
    + intros [rest [[-> _] Hk]]. exact Hk.
    + intros H. apply andb_true_iff in H as [Hc Hk]. apply Ascii.eqb_eq in Hc. subst c.
      exists [newline]. split; [split; [reflexivity|right; reflexivity]|exact Hk].
    + intros [rest [[-> [H|H]] Hk]]; [discriminate|]. injection H as ->.
      rewrite Ascii.eqb_refl. exact Hk.
    + discriminate.
    + intros [rest [[_ [H|H]] _]]; discriminate.
Qed.

(** [validate_email] accepts exactly [local@domain.tld] with the allowed character
    classes, a top-level part of at least two letters, and an optional final
    newline (the [$] of [re.match]). *)
Theorem validate_email_iff email :
  validate_email email = true <->
  exists local domain tld ending,
    list_ascii_of_string email = local ++ "@"%char :: domain ++ "."%char :: tld ++ ending /\
    (1 <= length local)%nat /\ Forall (fun c => email_local_char c = true) local /\
    (1 <= length domain)%nat /\ Forall (fun c => email_domain_char c = true) domain /\
    (2 <= length tld)%nat /\ Forall (fun c => is_ascii_letter c = true) tld /\
    (ending = [] \/ ending = [newline]).
Proof.
  unfold validate_email, re_match. rewrite rx_match_spec. unfold email_pattern. cbn [rx_matches]. split.
  - intros [rest [H _]].
    destruct H as [m1 [[local [H1 [Hl1 Hf1]]] H]].
    destruct H as [m2 [[c1 [H2 Hc1]] H]].
    destruct H as [m3 [[domain [H3 [Hl3 Hf3]]] H]].
    destruct H as [m4 [[c2 [H4 Hc2]] H]].
    destruct H as [m5 [[tld [H5 [Hl5 Hf5]]] [Hr Hend]]].
    apply Ascii.eqb_eq in Hc1, Hc2. subst.
    exists local, domain, tld, m5. repeat split; assumption.
  - intros [local [domain [tld [ending [He [Hl1 [Hf1 [Hl3 [Hf3 [Hl5 [Hf5 Hend]]]]]]]]]]].
    exists ending. split; [|reflexivity]. rewrite He.
    exists ("@"%char :: domain ++ "."%char :: tld ++ ending).
    split; [exists local; repeat split; assumption|].
    exists (domain ++ "."%char :: tld ++ ending).
    split; [exists "@"%char; split; [reflexivity|apply Ascii.eqb_refl]|].
    exists ("."%char :: tld ++ ending).
    split; [exists domain; repeat split; assumption|].
    exists (tld ++ ending).
    split; [exists "."%char; split; [reflexivity|apply Ascii.eqb_refl]|].
    exists ending. split; [exists tld; repeat split; assumption|].
    split; [reflexivity|exact Hend].
Qed.

Lemma email_chars_no_at_no_space c :
  (email_local_char c = true \/ email_domain_char c = true \/ is_ascii_letter c = true \/
   c = "."%char) ->
  c <> "@"%char /\ is_space c = false.
Proof.
  destruct c as [b0 b1 b2 b3 b4 b5 b6 b7].
  destruct b0, b1, b2, b3, b4, b5, b6, b7; vm_compute;
    intros H; first [split; [discriminate|reflexivity] | exfalso; intuition discriminate].
Qed.

(** An accepted address has exactly one [@], no whitespace besides an optional
    final newline. *)
Theorem validate_email_single_at email :
  validate_email email = true ->
  exists user domain ending,
    list_ascii_of_string email = user ++ "@"%char :: domain ++ ending /\
    ~ In "@"%char (user ++ domain) /\
    Forall (fun c => is_space c = false) (user ++ domain) /\
    (ending = [] \/ ending = [newline]).
Proof.
  intros H. apply validate_email_iff in H as
    [local [domain [tld [ending [He [_ [Hf1 [_ [Hf3 [_ [Hf5 Hend]]]]]]]]]]].
  exists local, (domain ++ "."%char :: tld), ending.
  assert (Hok : Forall (fun c => c <> "@"%char /\ is_space c = false)
                  (local ++ domain ++ "."%char :: tld)).
  { repeat apply Forall_app_2; [| |constructor].
    - eapply Forall_impl; [exact Hf1|]. intros c Hc. apply email_chars_no_at_no_space. tauto.
    - eapply Forall_impl; [exact Hf3|]. intros c Hc. apply email_chars_no_at_no_space. tauto.
    - apply email_chars_no_at_no_space. tauto.
    - eapply Forall_impl; [exact Hf5|]. intros c Hc. apply email_chars_no_at_no_space. tauto. }
  split; [rewrite He, <- app_assoc; reflexivity|]. split; [|split; [|exact Hend]].
  - intros Hin. rewrite List.Forall_forall in Hok. destruct (Hok _ Hin) as [Hne _]. exact (Hne eq_refl).
  - eapply Forall_impl; [exact Hok|]. intros c [_ Hc]. exact Hc.
Qed.

Lemma validate_email_single_at_witness :
  validate_email "jane.doe+news@mail.example.org" = true /\
  exists user domain ending,
    list_ascii_of_string "jane.doe+news@mail.example.org" = user ++ "@"%char :: domain ++ ending /\
    ~ In "@"%char (user ++ domain) /\
    Forall (fun c => is_space c = false) (user ++ domain) /\
    (ending = [] \/ ending = [newline]).
Proof.
  assert (H : validate_email "jane.doe+news@mail.example.org" = true) by (vm_compute; reflexivity).
  split; [exact H|]. exact (validate_email_single_at _ H).
Defined.

(* ---- extract_token_from_header ---- *)

Lemma space_lower_char c : is_space c = true -> lower_char c = c.
Proof.
  destruct c as [b0 b1 b2 b3 b4 b5 b6 b7].
  destruct b0, b1, b2, b3, b4, b5, b6, b7; vm_compute; congruence.
Qed.

Lemma split_runs_spaces sep ws rest :
  Forall (fun c => sep c = true) ws -> split_runs sep (ws ++ rest) [] = split_runs sep rest [].
Proof.
  induction ws as [|c ws IH]; intros H; [reflexivity|].
  apply Forall_cons in H as [Hc H]. simpl. rewrite Hc. apply IH, H.
Qed.

Lemma split_runs_word sep w rest cur :
  Forall (fun c => sep c = false) w ->
  split_runs sep (w ++ rest) cur = split_runs sep rest (rev w ++ cur).
Proof.
  revert cur; induction w as [|c w IH]; intros cur H; [reflexivity|].
  apply Forall_cons in H as [Hc H]. simpl. rewrite Hc, IH by exact H.
  rewrite <- app_assoc. reflexivity.
Qed.

Lemma split_runs_end_word sep ws rest c cur :
  Forall (fun c => sep c = true) ws -> ws <> [] ->
  split_runs sep (ws ++ rest) (c :: cur) = rev (c :: cur) :: split_runs sep rest [].
Proof.
  intros H Hne. destruct ws as [|x ws]; [contradiction|].
  apply Forall_cons in H as [Hx H]. simpl app. cbn [split_runs]. rewrite Hx.
  f_equal. apply split_runs_spaces, H.
Qed.

Lemma split_runs_last_word sep ws c cur :
  Forall (fun c => sep c = true) ws ->
  split_runs sep ws (c :: cur) = [rev (c :: cur)].
Proof.
  intros H. destruct ws as [|x ws]; [reflexivity|].
  rewrite <- (app_nil_r (x :: ws)). rewrite split_runs_end_word by (exact H || discriminate).
  reflexivity.
Qed.

Lemma bearer_not_space scheme :
  map lower_char scheme = list_ascii_of_string "bearer" ->
  Forall (fun c => is_space c = false) scheme.
Proof.
  intros H. apply List.Forall_forall. intros c Hc.
  destruct (is_space c) eqn:E; [|reflexivity].
  pose proof (space_lower_char c E) as El.
  apply (in_map lower_char) in Hc. rewrite El, H in Hc.
  exfalso. revert E. cbn [list_ascii_of_string In] in Hc.
  repeat (destruct Hc as [Hc|Hc]; [subst c; vm_compute; discriminate|]). destruct Hc.
Qed.

(** A header [Bearer <token>] in any letter case, with any surrounding whitespace,
    yields the token. *)
Theorem extract_token_round_trip ws1 scheme ws2 token ws3 :
  Forall (fun c => is_space c = true) (ws1 ++ ws2 ++ ws3) -> ws2 <> [] ->
  map lower_char scheme = list_ascii_of_string "bearer" ->
  token <> [] -> Forall (fun c => is_space c = false) token ->
  extract_token_from_header (string_of_list_ascii (ws1 ++ scheme ++ ws2 ++ token ++ ws3)) =
  Some token.
Proof.
  intros Hws Hne Hs Htn Ht. rewrite !Forall_app in Hws. destruct Hws as [H1 [H2 H3]].
  pose proof (bearer_not_space _ Hs) as Hsc.
  assert (Hsn : scheme <> []) by (intros ->; discriminate).
  unfold extract_token_from_header, py_split.
  rewrite list_ascii_of_string_of_list_ascii.
  destruct (String.eqb_spec (string_of_list_ascii (ws1 ++ scheme ++ ws2 ++ token ++ ws3)) "")
    as [E|_].
  { apply (f_equal list_ascii_of_string) in E. rewrite list_ascii_of_string_of_list_ascii in E.
    destruct scheme; [contradiction|]. destruct ws1; discriminate. }
  rewrite split_runs_spaces by exact H1.
  rewrite split_runs_word by exact Hsc. rewrite app_nil_r.
  destruct (rev scheme) as [|c rs] eqn:Er; [apply (f_equal (@rev ascii)) in Er; rewrite rev_involutive in Er; contradiction|].
  rewrite split_runs_end_word by assumption.
  rewrite split_runs_word by exact Ht. rewrite app_nil_r.
  destruct (rev token) as [|d rt] eqn:Et; [apply (f_equal (@rev ascii)) in Et; rewrite rev_involutive in Et; contradiction|].
  rewrite split_runs_last_word by exact H3.
  rewrite <- Er, <- Et, !rev_involutive.
  destruct (decide (map lower_char scheme = list_ascii_of_string "bearer")); [reflexivity|contradiction].
Qed.

Lemma extract_token_round_trip_witness :
  extract_token_from_header " Bearer  eyJhbGciOiJIUzI1NiJ9.e30.sig" =
  Some (list_ascii_of_string "eyJhbGciOiJIUzI1NiJ9.e30.sig").
Proof.
  exact (extract_token_round_trip [" "%char] (list_ascii_of_string "Bearer") [" "%char; " "%char]
           (list_ascii_of_string "eyJhbGciOiJIUzI1NiJ9.e30.sig") []
           ltac:(repeat constructor) ltac:(discriminate) eq_refl ltac:(discriminate)
           ltac:(vm_compute; repeat constructor)).
Defined.

Lemma split_runs_runs sep cs cur r :
  Forall (fun c => sep c = false) cur -> In r (split_runs sep cs cur) ->
  r <> [] /\ Forall (fun c => sep c = false) r.
Proof.
  revert cur; induction cs as [|c0 cs IH]; intros cur Hcur Hr; simpl in Hr.
  - destruct cur as [|x cur']; [destruct Hr|].
    destruct Hr as [<-|[]]. split.
    + intros E. apply (f_equal (@length ascii)) in E. rewrite length_rev in E. discriminate.
    + apply Forall_rev. exact Hcur.
  - destruct (sep c0) eqn:Ec.
    + destruct cur as [|x cur'].
      * exact (IH [] (List.Forall_nil _) Hr).
      * destruct Hr as [<-|Hr]; [|exact (IH [] (List.Forall_nil _) Hr)]. split.
        { intros E. apply (f_equal (@length ascii)) in E. rewrite length_rev in E. discriminate. }
        apply Forall_rev. exact Hcur.
    + exact (IH (c0 :: cur) ltac:(constructor; assumption) Hr).
Qed.

(** A token is only returned from a two-word header whose first word is
    [bearer] in some letter case; it is nonempty and free of whitespace. *)
Theorem extract_token_sound header token :
  extract_token_from_header header = Some token ->
  token <> [] /\ Forall (fun c => is_space c = false) token /\
  exists scheme, py_split header = [scheme; token] /\
                 map lower_char scheme = list_ascii_of_string "bearer".
Proof.
  unfold extract_token_from_header.
  destruct (String.eqb header ""); [discriminate|].
  destruct (py_split header) as [|scheme [|tok [|x rest]]] eqn:E; try discriminate.
  destruct (decide _) as [Hb|]; [|discriminate]. intros H. injection H as <-.
  assert (Hin : In tok (py_split header)) by (rewrite E; right; left; reflexivity).
  destruct (split_runs_runs is_space _ [] tok (List.Forall_nil _) Hin) as [Hn Hf].
  split; [exact Hn|]. split; [exact Hf|]. exists scheme. split; [reflexivity|exact Hb].
Qed.

Lemma extract_token_sound_witness :
  list_ascii_of_string "abc.def" <> [] /\
  Forall (fun c => is_space c = false) (list_ascii_of_string "abc.def") /\
  exists scheme, py_split "bearer abc.def" = [scheme; list_ascii_of_string "abc.def"] /\
                 map lower_char scheme = list_ascii_of_string "bearer".
Proof.
  apply extract_token_sound. vm_compute. reflexivity.
Defined.
